(** * dep-dl: source resolution, meta-import discovery and archive extraction

    A shallow embedding of [main.go] of dep-dl.  The program reads the
    projects of a [Gopkg.lock] file and fetches each of them into
    [vendor/<name>], from a GitHub tarball when the source names a GitHub
    repository and with [git clone] otherwise.

    The file has three layers:
    - [Go]: the functions of Go's standard library that [main.go] calls on
      strings and paths ([strings.Split], [filepath.Join], [regexp], ...);
    - [Os]: the file system the program writes to, as a finite map from
      absolute paths to nodes;
    - the program itself: [entryTarget], [writeEntry], [extract], [dlGithub],
      [dlGit], [parseMetaGoImports], [getGoImports] and [download], written
      in state-passing style over a [World] (file system and trace of the
      actions performed), with the network, the decoders and the git client
      supplied by an environment [Env].

    The theorems follow the definitions: the package filter of the
    extraction loop, meta-import discovery, the traces of the fetch
    functions and the dispatch of [download], what an entry leaves in the
    file system, and fetching the same archive twice. *)

From Stdlib Require Import Ascii List ZArith NArith Lia Bool.
From Stdlib Require String.
From stdpp Require Import base option list gmap strings.

Local Open Scope Z_scope.

(** ** Go's standard library on strings and paths *)

Module Go.

(** A Go [string] is a sequence of bytes; [String.string] is the same. *)

Definition slash : ascii := "/"%char.
Definition newline : ascii := "010"%char.

(** [strings.HasPrefix]. *)
Definition HasPrefix (s pre : string) : bool := String.prefix pre s.

(** [strings.Split(s, "/")]: the substrings between the separators; a
    string without separator is returned whole, also the empty one. *)
Fixpoint Split (s : string) : list string :=
  match s with
  | EmptyString => [EmptyString]
  | String c s' =>
      if Ascii.eqb c slash then EmptyString :: Split s'
      else match Split s' with
           | x :: xs => String c x :: xs
           | [] => [String c EmptyString]
           end
  end.

(** [strings.Join(elems, "/")]. *)
Definition JoinSlash (elems : list string) : string := String.concat "/" elems.

(** One element of the lexical processing of [filepath.Clean]: [acc] is the
    stack of elements kept so far, innermost first. *)
Definition cleanStep (rooted : bool) (acc : list string) (c : string) : list string :=
  if String.eqb c "" then acc
  else if String.eqb c "." then acc
  else if String.eqb c ".." then
    match acc with
    | top :: rest => if String.eqb top ".." then c :: acc else rest
    | [] => if rooted then [] else [c]
    end
  else c :: acc.

(** [filepath.Clean] on a Unix path: empty and [.] elements are dropped, an
    inner [..] removes the element before it, [..] at the start of a rooted
    path is dropped, and the empty result is [.]. *)
Definition Clean (path : string) : string :=
  let rooted := HasPrefix path "/" in
  let body := JoinSlash (rev (fold_left (cleanStep rooted) (Split path) [])) in
  if rooted then "/" +:+ body
  else if String.eqb body "" then "." else body.

(** [filepath.Join]: leading empty elements are skipped, the rest is joined
    with the separator and cleaned; no element at all gives the empty
    string. *)
Fixpoint Join (elem : list string) : string :=
  match elem with
  | [] => ""
  | e :: rest => if String.eqb e "" then Join rest else Clean (JoinSlash elem)
  end.

(** [filepath.Dir]: the path up to and with its last separator, cleaned. *)
Definition Dir (path : string) : string :=
  match Split path with
  | [] | [_] => Clean ""
  | comps => Clean (JoinSlash (removelast comps) +:+ "/")
  end.

(** *** Runes

    [regexp], [strings.Fields], [strings.ToLower] and [strings.EqualFold]
    read a string rune by rune.  [decodeRune] is
    [utf8.DecodeRuneInString]: the code point and the width in bytes of the
    first rune, an invalid encoding being the rune [U+FFFD] of width 1. *)

Definition byteAt (s : string) (i : nat) : option N :=
  N_of_ascii <$> String.get i s.

Definition inRange (lo hi : N) (b : option N) : bool :=
  match b with
  | Some x => (lo <=? x)%N && (x <=? hi)%N
  | None => false
  end.

Definition RuneError : N := 65533%N.

Definition cont (b : option N) : N := from_option (fun x => N.land x 63) 0%N b.

Definition decodeRune (s : string) : N * nat :=
  match byteAt s 0 with
  | None => (RuneError, 0%nat)
  | Some b0 =>
      let b1 := byteAt s 1 in
      let b2 := byteAt s 2 in
      let b3 := byteAt s 3 in
      let tail := inRange 128 191 in
      if (b0 <? 128)%N then (b0, 1%nat)
      else if inRange 194 223 (Some b0) then
        if tail b1 then (N.land b0 31 * 64 + cont b1, 2%nat)%N
        else (RuneError, 1%nat)
      else if inRange 224 239 (Some b0) then
        let lo := if (b0 =? 224)%N then 160%N else 128%N in
        let hi := if (b0 =? 237)%N then 159%N else 191%N in
        if inRange lo hi b1 && tail b2
        then ((N.land b0 15 * 64 + cont b1) * 64 + cont b2, 3%nat)%N
        else (RuneError, 1%nat)
      else if inRange 240 244 (Some b0) then
        let lo := if (b0 =? 240)%N then 144%N else 128%N in
        let hi := if (b0 =? 244)%N then 143%N else 191%N in
        if inRange lo hi b1 && tail b2 && tail b3
        then (((N.land b0 7 * 64 + cont b1) * 64 + cont b2) * 64 + cont b3, 4%nat)%N
        else (RuneError, 1%nat)
      else (RuneError, 1%nat)
  end.

Fixpoint dropS (n : nat) (s : string) : string :=
  match n, s with
  | S n', String _ s' => dropS n' s'
  | _, _ => s
  end.

Definition takeS (n : nat) (s : string) : string := String.substring 0 n s.

(** The runes of a string with the bytes that encode each. *)
Fixpoint runesFuel (fuel : nat) (s : string) : list (N * string) :=
  match fuel, s with
  | S fuel', String _ _ =>
      let '(r, w) := decodeRune s in
      (r, takeS w s) :: runesFuel fuel' (dropS w s)
  | _, _ => []
  end.

Definition runes (s : string) : list (N * string) :=
  runesFuel (String.length s) s.

(** [unicode.IsSpace]. *)
Definition IsSpace (r : N) : bool :=
  (inRange 9 13 (Some r) || (r =? 32) || (r =? 133) || (r =? 160)
   || (r =? 5760) || inRange 8192 8202 (Some r) || (r =? 8232)
   || (r =? 8233) || (r =? 8239) || (r =? 8287) || (r =? 12288))%N.

(** [strings.Fields]: the maximal runs of runes that are not white space. *)
Fixpoint fieldsGo (cur : option string) (rs : list (N * string)) : list string :=
  match rs with
  | [] => option_list cur
  | (r, bytes) :: rs' =>
      if IsSpace r then option_list cur ++ fieldsGo None rs'
      else fieldsGo (Some (from_option id "" cur +:+ bytes)) rs'
  end.

Definition Fields (s : string) : list string := fieldsGo None (runes s).

Definition isUpperAscii (r : N) : bool := inRange 65 90 (Some r).

(** The image of a rune under [unicode.ToLower], encoded.  Two runes
    outside ASCII have an ASCII lower case: [U+0130] gives [i] and the
    Kelvin sign [U+212A] gives [k].  Every other rune outside ASCII is left
    as it is here; Go maps it to a rune outside ASCII as well, so that
    comparing the result with an ASCII string, which is all [main.go] does
    with it, gives the same answer. *)
Definition lowerRune (rb : N * string) : string :=
  let '(r, bytes) := rb in
  if isUpperAscii r then String (ascii_of_N (r + 32)) ""
  else if (r =? 304)%N then "i"
  else if (r =? 8490)%N then "k"
  else bytes.

(** [strings.ToLower]. *)
Definition ToLower (s : string) : string :=
  String.concat "" (map lowerRune (runes s)).

(** The representative of a rune under simple case folding, for the runes
    that fold to ASCII: the letters, the Kelvin sign ([k]) and the long s
    [U+017F] ([s]). *)
Definition foldRune (r : N) : N :=
  if isUpperAscii r then (r + 32)%N
  else if (r =? 8490)%N then 107%N
  else if (r =? 383)%N then 115%N
  else r.

(** [strings.EqualFold], exact when one of the two strings is ASCII (as in
    every call of [main.go], where [t] is a literal). *)
Definition EqualFold (s t : string) : bool :=
  bool_decide (map (fun rb => foldRune rb.1) (runes s)
               = map (fun rb => foldRune rb.1) (runes t)).

(** *** Regular expressions

    The two patterns of [main.go] use literals, [.], and a greedy [+] over
    [.] or over a negated class, some of them captured.  [matchHere] is the
    backtracking search that defines which match [regexp] returns at a
    given start; [FindStringSubmatch] takes the leftmost start that has
    one. *)

Inductive class : Type :=
| AnyButNL
| NoneOf (xs : list ascii).

Inductive node : Type :=
| Lit (c : ascii)
| Dot
| Many (k : class) (capture : bool).

Definition inClass (k : class) (c : ascii) : bool :=
  match k with
  | AnyButNL => negb (Ascii.eqb c newline)
  | NoneOf xs => negb (existsb (Ascii.eqb c) xs)
  end.

Definition consMatch (pre : string) (r : string * list string) : string * list string :=
  (pre +:+ r.1, r.2).

(** The text matched from the start of [s] and the captured groups. *)
Fixpoint matchHere (p : list node) (s : string) : option (string * list string) :=
  match p with
  | [] => Some ("", [])
  | Lit c :: p' =>
      match s with
      | String a s' =>
          if Ascii.eqb a c then consMatch (String a "") <$> matchHere p' s' else None
      | EmptyString => None
      end
  | Dot :: p' =>
      match s with
      | String a _ =>
          if Ascii.eqb a newline then None
          else let w := (decodeRune s).2 in
               consMatch (takeS w s) <$> matchHere p' (dropS w s)
      | EmptyString => None
      end
  | Many k capture :: p' =>
      let many := fix many (s : string) : option (string * (string * list string)) :=
        match s with
        | String a s' =>
            if inClass k a then
              match many s' with
              | Some (run, r) => Some (String a run, r)
              | None => pair (String a "") <$> matchHere p' s'
              end
            else None
        | EmptyString => None
        end in
      (fun '(run, r) => (run +:+ r.1, if capture then run :: r.2 else r.2)) <$> many s
  end.

(** [Regexp.FindStringSubmatch]: the leftmost match and its groups, the
    whole match first; [None] is Go's [nil]. *)
Fixpoint FindStringSubmatch (p : list node) (s : string) : option (list string) :=
  match matchHere p s with
  | Some (m, gs) => Some (m :: gs)
  | None =>
      match s with
      | String _ s' => FindStringSubmatch p s'
      | EmptyString => None
      end
  end.

Fixpoint lits (s : string) : list node :=
  match s with
  | EmptyString => []
  | String c s' => Lit c :: lits s'
  end.

(** [match[i]] of a result of [FindStringSubmatch]. *)
Definition group (m : list string) (i : nat) : string := nth i m "".

#[global] Arguments Join : simpl never.
#[global] Arguments Clean : simpl never.
#[global] Arguments Split : simpl never.
#[global] Arguments FindStringSubmatch : simpl never.

End Go.


Import Go.

(** ** Errors *)

Inductive errno : Type := ENOENT | EEXIST | ENOTDIR | EISDIR | ELOOP.

(** The error values the program handles: those of the file system
    ([*os.PathError], [*os.LinkError]), those it receives from the network,
    the decoders and the git client, whose text is all that is known of them,
    those it builds itself with [fmt.Errorf] or [errors.Errorf], and the
    wrapper of [errors.WithStack]. *)
Inductive error : Type :=
| PathError (op path : string) (e : errno)
| Opaque (msg : string)
| Errorf (msg : string)
| WithStack (e : error).

Definition errnoText (e : errno) : string :=
  match e with
  | ENOENT => "no such file or directory"
  | EEXIST => "file exists"
  | ENOTDIR => "not a directory"
  | EISDIR => "is a directory"
  | ELOOP => "too many levels of symbolic links"
  end.

(** The method [Error()]. *)
Fixpoint errorText (e : error) : string :=
  match e with
  | PathError op path no => op +:+ " " +:+ path +:+ ": " +:+ errnoText no
  | Opaque msg => msg
  | Errorf msg => msg
  | WithStack e' => errorText e'
  end.

(** ** The file system *)

Module Os.

(** What a path names: a regular file with its permission bits and bytes,
    a directory, or a symbolic link with the path it points at.  Owners,
    permission checks and time stamps are not part of the model. *)
Inductive node : Type :=
| RegFile (mode : Z) (data : string)
| Directory
| SymLink (target : string).

#[global] Instance node_eq_dec : EqDecision node.
Proof. solve_decision. Defined.

(** An object is located by the elements of its absolute path, outermost
    first; the empty list is the root directory, which always exists and
    is not stored.  Symbolic links are not followed: a link met where a
    file or a directory is expected is an error.  The kernel follows such a
    link; the operations below do what it does on the paths that hold no
    link, and the statements that depend on this carry the hypothesis
    ([linkFree], [noLinks], or that no entry written is a link). *)
Abbreviation loc := (list string).
Abbreviation FS := (gmap (list string) node).

(** The location a path names in working directory [wd]: the elements of
    the cleaned absolute path. *)
Definition resolve (wd path : string) : loc :=
  let full := if HasPrefix path "/" then path else wd +:+ "/" +:+ path in
  rev (fold_left (cleanStep true) (Split full) []).

(** The directory a location lies in. *)
Definition parent (p : loc) : loc := removelast p.

(** [p] is [base] or lies below it. *)
Definition under (base p : loc) : bool := bool_decide (base `prefix_of` p).

Definition isDir (fs : FS) (p : loc) : bool :=
  bool_decide (p = []) || bool_decide (fs !! p = Some Directory).

(** [os.RemoveAll]: the object and everything below it are removed; a path
    that names nothing is not an error.  Without permissions nothing makes
    it fail. *)
Definition RemoveAll (wd : string) (fs : FS) (path : string) : FS :=
  filter (fun kv : loc * node => under (resolve wd path) kv.1 = false) fs.

(** The directories named by [comps] are created one below the other from
    [cur] on; one that exists is kept, a file or a link in the way is
    [ENOTDIR].  (Through a link to a directory the kernel goes on; this is
    outside the model, see the head of the module.) *)
Fixpoint mkdirs (fs : FS) (cur : loc) (comps : list string) : FS * option error :=
  match comps with
  | [] => (fs, None)
  | c :: cs =>
      let p := cur ++ [c] in
      match fs !! p with
      | Some Directory => mkdirs fs p cs
      | None => mkdirs (<[p := Directory]> fs) p cs
      | Some _ => (fs, Some (PathError "mkdir" ("/" +:+ JoinSlash p) ENOTDIR))
      end
  end.

(** [os.MkdirAll]: the directory and the missing ones above it. *)
Definition MkdirAll (wd : string) (fs : FS) (path : string) : FS * option error :=
  mkdirs fs [] (resolve wd path).

(** Writing [new] at offset 0 of a file that holds [old], which is not
    truncated. *)
Definition overwrite (old new : string) : string :=
  new +:+ dropS (String.length new) old.

(** What stands in the way of creating an object at [p], if anything: the
    directory of [p] has to exist. *)
Definition parentErr (fs : FS) (p : loc) : option errno :=
  if isDir fs (parent p) then None
  else if bool_decide (fs !! parent p = None) then Some ENOENT
  else Some ENOTDIR.

(** [syscallMode] of package [os]: of a [FileMode] the system call receives
    the nine permission bits and, for the bits [ModeSetuid], [ModeSetgid]
    and [ModeSticky] (bits 23, 22 and 20 of a [FileMode]), the bits
    [S_ISUID], [S_ISGID] and [S_ISVTX]. *)
Definition syscallMode (mode : Z) : Z :=
  Z.land mode 511
  + (if Z.testbit mode 23 then 2048 else 0)
  + (if Z.testbit mode 22 then 1024 else 0)
  + (if Z.testbit mode 20 then 512 else 0).

(** The mode a new file gets: the kernel clears the permission bits that
    are set in the umask of the process. *)
Definition created (umask mode : Z) : Z :=
  Z.ldiff (syscallMode mode) (Z.land umask 511).

(** [os.OpenFile(path, os.O_RDWR|os.O_CREATE, mode)]: an existing file is
    opened as it is, a missing one is created empty in its directory with
    the mode [created umask mode].  (At a link the kernel opens what the
    link names; this is outside the model, see the head of the module, and
    the answer here is [ELOOP].) *)
Definition OpenFile (wd : string) (umask : Z) (fs : FS) (path : string) (mode : Z)
  : FS * option error :=
  let p := resolve wd path in
  match fs !! p with
  | Some (RegFile _ _) => (fs, None)
  | Some Directory => (fs, Some (PathError "open" path EISDIR))
  | Some (SymLink _) => (fs, Some (PathError "open" path ELOOP))
  | None =>
      if bool_decide (p = []) then (fs, Some (PathError "open" path EISDIR))
      else match parentErr fs p with
           | Some no => (fs, Some (PathError "open" path no))
           | None => (<[p := RegFile (created umask mode) ""]> fs, None)
           end
  end.

(** Writing [bytes] from the start of the open file at [path]. *)
Definition Write (wd : string) (fs : FS) (path : string) (bytes : string) : FS :=
  let p := resolve wd path in
  match fs !! p with
  | Some (RegFile mode old) => <[p := RegFile mode (overwrite old bytes)]> fs
  | _ => fs
  end.

(** [os.Symlink(oldname, newname)]: a link is created at [newname], which
    has to be free and in an existing directory, and points at
    [oldname]. *)
Definition Symlink (wd : string) (fs : FS) (oldname newname : string) : FS * option error :=
  let p := resolve wd newname in
  if String.eqb newname "" then (fs, Some (PathError "symlink" newname ENOENT))
  else if bool_decide (p = []) || bool_decide (is_Some (fs !! p))
  then (fs, Some (PathError "symlink" newname EEXIST))
  else match parentErr fs p with
       | Some no => (fs, Some (PathError "symlink" newname no))
       | None => (<[p := SymLink oldname]> fs, None)
       end.

(** The objects at and below [base]: the tree rooted there. *)
Definition tree (base : loc) (fs : FS) : FS :=
  filter (fun kv : loc * node => under base kv.1 = true) fs.

End Os.

(** ** The data of the program *)

(** [type project struct], an entry of [Gopkg.lock]. *)
Record project : Type := {
  Name : string;
  Branch : string;
  Revision : string;
  Version : string;
  Source : string;
  Packages : list string;
  subdirTable : gmap string bool
}.

(** [type metaImport struct]. *)
Record metaImport : Type := {
  Prefix : string;
  VCS : string;
  RepoRoot : string
}.

#[global] Instance metaImport_eq_dec : EqDecision metaImport.
Proof. solve_decision. Defined.

(** [githubRegexp], the pattern
    [github.com/(?P<user>[^/ \n]+)/(?P<repo>[^/ \n]+)]. *)
Definition githubRegexp : list node :=
  lits "github" ++ [Dot] ++ lits "com/"
  ++ [Many (NoneOf [slash; " "%char; newline]) true; Lit slash;
      Many (NoneOf [slash; " "%char; newline]) true].

(** [gopkgRegexp], the pattern [gopkg.in/(.+)]. *)
Definition gopkgRegexp : list node :=
  lits "gopkg" ++ [Dot] ++ lits "in/" ++ [Many AnyButNL true].

(** *** What the program receives from outside *)

(** An HTTP response: the status, the bytes of the body and the error
    reading the body ends with, if it is not the end of the stream. *)
Record Response : Type := {
  StatusCode : Z;
  Status : string;
  Body : string;
  BodyErr : option error
}.

(** [tar.Header], the fields the program reads; [hName] is its field
    [Name]. *)
Record Header : Type := {
  hName : string;
  Typeflag : ascii;
  Mode : Z;
  Linkname : string;
  AccessTime : Z;
  ModTime : Z
}.

Definition TypeReg : ascii := "0"%char.
Definition TypeRegA : ascii := "000"%char.
Definition TypeSymlink : ascii := "2"%char.
Definition TypeDir : ascii := "5"%char.

(** An entry of a tar stream: the header [files.Next()] returns, the bytes
    reading the content of the entry gives and the error the reading ends
    with, if it is not the end of the content. *)
Record TarItem : Type := {
  hdr : Header;
  content : string;
  contentErr : option error
}.

(** The tokens of [encoding/xml] as far as the program tells them apart;
    names are the [Name.Local] of elements and attributes. *)
Inductive Token : Type :=
| StartElement (name : string) (attrs : list (string * string))
| EndElement (name : string)
| OtherToken.

(** The actions of the program on the outside, and the calls of its two
    fetch functions, in the order they happen. *)
Inductive Event : Type :=
| Stdout (line : string)
| Stderr (line : string)
| HttpGet (url : string)
| Exec (cmd : list string) (dir : string)
| Chtimes (path : string) (atime mtime : Z)
| CallDlGithub (user repo : string)
| CallDlGit (path : string).

#[global] Instance errno_eq_dec : EqDecision errno.
Proof. solve_decision. Defined.

#[global] Instance error_eq_dec : EqDecision error.
Proof. solve_decision. Defined.

#[global] Instance Event_eq_dec : EqDecision Event.
Proof. solve_decision. Defined.

(** The state the program acts on: the file system, and the trace of what
    it has done so far, oldest first. *)
Record World : Type := {
  fs : Os.FS;
  trace : list Event
}.

Definition emit (e : Event) (w : World) : World :=
  {| fs := fs w; trace := trace w ++ [e] |}.

Definition setFs (f : Os.FS) (w : World) : World :=
  {| fs := f; trace := trace w |}.

(** The environment of a run.
    - [wd] is the working directory [main] reads with [os.Getwd];
    - [verbose] is the flag [-v];
    - [httpGet] is [http.Get];
    - [tarReader] is [gzip.NewReader] followed by [tar.NewReader] on the
      bytes of a body: an error of the gzip header, or the entries
      [files.Next()] returns and the error it ends with ([None] is
      [io.EOF]);
    - [rawTokens] gives the tokens [d.RawToken()] returns on a body, for the
      decoder that [parseMetaGoImports] sets up (not strict, with
      [charsetReader]), and the error it ends with ([None] is [io.EOF]);
    - [umask] is the file mode creation mask of the process;
    - [git] runs the git client with arguments in a directory (the empty
      string is the working directory), as [exec.Command] and [Output] do:
      the file system after it, the bytes [Output] returns and its error.
      The bytes are [None], Go's [nil], when the command could not be
      started, and [Some] of what the command wrote to its standard output
      when it ran, also when it wrote nothing: [Output] then returns a
      slice that is empty and not [nil]. *)
Record Env : Type := {
  wd : string;
  verbose : bool;
  umask : Z;
  httpGet : string -> error + Response;
  tarReader : string -> error + (list TarItem * option error);
  rawTokens : Response -> list Token * option error;
  git : list string -> string -> Os.FS -> Os.FS * option string * option error
}.

(** [vendorDir], as [main] sets it. *)
Definition vendorDir (E : Env) : string := Join [wd E; "vendor"].

(** [fmt.Println] of strings: the operands separated by spaces. *)
Definition Println (ops : list string) : Event := Stdout (String.concat " " ops).

(** ** Archive extraction: [dlGithub] *)

(** Indexing a [map[string]bool]: a missing key reads [false]. *)
Definition tableGet (t : gmap string bool) (k : string) : bool := default false (t !! k).

(** [nameDirs[1 : len(nameDirs)-1]] joined: the directory of the entry below
    the top directory of the archive. *)
Definition pkgOf (nameDirs : list string) : string :=
  Join (take (length nameDirs - 2) (drop 1 nameDirs)).

(** Lines 92 to 103 of [main.go]: the path an entry named [name] is written
    at, [None] when the loop goes on to the next entry without writing. *)
Definition entryTarget (baseDir : string) (table : gmap string bool) (name : string)
  : option string :=
  let nameDirs := Split name in
  if (2 <? length nameDirs)%nat && negb (tableGet table (pkgOf nameDirs)) then None
  else
    let target := Join [baseDir; Join (drop 1 nameDirs)] in
    if String.eqb target baseDir then None else Some target.

(** The [switch hdr.Typeflag] of the loop. *)
Definition writeEntry (E : Env) (target : string) (it : TarItem) (w : World)
  : World * option error :=
  let tf := Typeflag (hdr it) in
  if Ascii.eqb tf TypeReg || Ascii.eqb tf TypeRegA then
    match Os.OpenFile (wd E) (umask E) (fs w) target (Mode (hdr it)) with
    | (f, Some err) => (setFs f w, Some (WithStack err))
    | (f, None) =>
        let f' := Os.Write (wd E) f target (content it) in
        match contentErr it with
        | Some err => (setFs f' w, Some (WithStack err))
        | None => (setFs f' w, None)
        end
    end
  else if Ascii.eqb tf TypeDir then
    match Os.MkdirAll (wd E) (fs w) target with
    | (f, Some err) => (setFs f w, Some (WithStack err))
    | (f, None) => (setFs f w, None)
    end
  else if Ascii.eqb tf TypeSymlink then
    match Os.Symlink (wd E) (fs w) target (Linkname (hdr it)) with
    | (f, Some err) => (setFs f w, Some (WithStack err))
    | (f, None) => (setFs f w, None)
    end
  else (w, None).

(** What [files.Next()] does after the entry [it], whose content the loop
    has read to its end or not at all: it passes over what is left of the
    content, fails with the error that reading it meets, and [k] goes on
    with the following entries otherwise. *)
Definition nextEntry (it : TarItem) (w : World) (k : World -> World * option error)
  : World * option error :=
  match contentErr it with
  | Some err => (w, Some (WithStack err))
  | None => k w
  end.

(** The loop over the entries of the archive; [fin] is what [files.Next()]
    returns after the last entry ([None] is [io.EOF]). *)
Fixpoint extract (E : Env) (baseDir : string) (table : gmap string bool)
    (items : list TarItem) (fin : option error) (w : World) : World * option error :=
  match items with
  | [] =>
      match fin with
      | None => (w, None)
      | Some err => (w, Some (WithStack err))
      end
  | it :: rest =>
      match entryTarget baseDir table (hName (hdr it)) with
      | None => nextEntry it w (extract E baseDir table rest fin)
      | Some target =>
          let w1 := if verbose E then emit (Println ["Writing:"; target]) w else w in
          match writeEntry E target it w1 with
          | (w2, Some err) => (w2, Some err)
          | (w2, None) =>
              nextEntry it
                (emit (Chtimes target (AccessTime (hdr it)) (ModTime (hdr it))) w2)
                (extract E baseDir table rest fin)
          end
      end
  end.

Definition tarballUrl (user repo revision : string) : string :=
  "https://api.github.com/repos/" +:+ user +:+ "/" +:+ repo +:+ "/tarball/" +:+ revision.

Definition dlGithub (E : Env) (pj : project) (user repo : string) (w : World)
  : World * option error :=
  let w := emit (CallDlGithub user repo) w in
  let url := tarballUrl user repo (Revision pj) in
  let w := emit (HttpGet url) w in
  match httpGet E url with
  | inl err => (w, Some (WithStack err))
  | inr resp =>
      if negb (StatusCode resp =? 200) then
        (w, Some (Errorf ("failed getting tarball: status " +:+ Status resp
                          +:+ " (URL: " +:+ url +:+ ")")))
      else
        match BodyErr resp with
        | Some err => (w, Some err)
        | None =>
            match tarReader E (Body resp) with
            | inl err => (w, Some (WithStack err))
            | inr (items, fin) =>
                let baseDir := Join [vendorDir E; Name pj] in
                let w := setFs (Os.RemoveAll (wd E) (fs w) baseDir) w in
                match Os.MkdirAll (wd E) (fs w) baseDir with
                | (f, Some err) => (setFs f w, Some (WithStack err))
                | (f, None) => extract E baseDir (subdirTable pj) items fin (setFs f w)
                end
            end
        end
  end.

(** ** Raw fetch with the git client: [dlGit] *)

Definition dlGit (E : Env) (pj : project) (path : string) (w : World)
  : World * (option string * option error) :=
  let w := emit (CallDlGit path) w in
  match FindStringSubmatch githubRegexp path with
  | Some m =>
      let '(w, err) := dlGithub E pj (group m 1) (group m 2) w in
      (w, (None, err))
  | None =>
      let baseDir := Join [vendorDir E; Name pj] in
      match Os.MkdirAll (wd E) (fs w) (Dir baseDir) with
      | (f, Some err) => (setFs f w, (None, Some (WithStack err)))
      | (f, None) =>
          let w := setFs (Os.RemoveAll (wd E) f baseDir) w in
          let w := emit (Exec ["git"; "clone"; path; baseDir] "") w in
          match git E ["clone"; path; baseDir] "" (fs w) with
          | (f, out, Some err) => (setFs f w, (out, Some (WithStack err)))
          | (f, _, None) =>
              let w := setFs f w in
              let w := emit (Exec ["git"; "reset"; "--hard"; Revision pj] baseDir) w in
              match git E ["reset"; "--hard"; Revision pj] baseDir (fs w) with
              | (f, out, Some err) => (setFs f w, (out, Some (WithStack err)))
              | (f, _, None) => (setFs f w, (None, None))
              end
          end
      end
  end.

(** ** Meta-import discovery *)

(** [attrValue]: the value of the first attribute whose name is [name] up
    to case, the empty string when there is none. *)
Fixpoint attrValue (attrs : list (string * string)) (name : string) : string :=
  match attrs with
  | [] => ""
  | (k, v) :: rest => if EqualFold k name then v else attrValue rest name
  end.

(** Lines 215 to 233: what a [meta] element does to the tags collected so
    far. *)
Definition metaStep (imports : list metaImport) (attrs : list (string * string))
  : list metaImport :=
  let replaced :=
    if String.eqb (attrValue attrs "name") "go-source" && (length imports =? 1)%nat then
      match FindStringSubmatch githubRegexp (attrValue attrs "content") with
      | Some m =>
          Some [{| Prefix := from_option Prefix "" (head imports);
                   VCS := "git";
                   RepoRoot := group m 0 |}]
      | None => None
      end
    else None in
  match replaced with
  | Some imports' => imports'
  | None =>
      if negb (String.eqb (attrValue attrs "name") "go-import") then imports
      else
        match Fields (attrValue attrs "content") with
        | [f0; f1; f2] => imports ++ [{| Prefix := f0; VCS := f1; RepoRoot := f2 |}]
        | _ => imports
        end
  end.

(** One turn of the loop of [parseMetaGoImports] on a token: the tags
    collected after it, [None] when the function returns at this token (the
    start of the body or the end of the head). *)
Definition tokenStep (imports : list metaImport) (t : Token) : option (list metaImport) :=
  match t with
  | StartElement name attrs =>
      if EqualFold name "body" then None
      else if negb (EqualFold name "meta") then Some imports
      else Some (metaStep imports attrs)
  | EndElement name =>
      if EqualFold name "head" then None else Some imports
  | OtherToken => Some imports
  end.

(** The loop of [parseMetaGoImports] over the tokens [d.RawToken()] returns;
    [fin] is the error it returns after them ([None] is [io.EOF]), which is
    dropped when a tag was collected. *)
Fixpoint parseLoop (imports : list metaImport) (toks : list Token) (fin : option error)
  : list metaImport * option error :=
  match toks with
  | [] =>
      match fin with
      | None => (imports, None)
      | Some err => if (0 <? length imports)%nat then (imports, None) else (imports, Some err)
      end
  | t :: rest =>
      match tokenStep imports t with
      | None => (imports, None)
      | Some imports' => parseLoop imports' rest fin
      end
  end.

Definition parseMetaGoImports (r : list Token * option error)
  : list metaImport * option error :=
  parseLoop [] r.1 r.2.

(** [%v] of a [metaImport] and of a slice of them. *)
Definition showImport (m : metaImport) : string :=
  "{" +:+ Prefix m +:+ " " +:+ VCS m +:+ " " +:+ RepoRoot m +:+ "}".

Definition showImports (ms : list metaImport) : string :=
  "[" +:+ String.concat " " (map showImport ms) +:+ "]".

Definition noImport : metaImport := {| Prefix := ""; VCS := ""; RepoRoot := "" |}.

Definition getGoImports (E : Env) (path : string) (w : World)
  : World * (error + metaImport) :=
  let url := "https://" +:+ path +:+ "?go-get=1" in
  let w := emit (HttpGet url) w in
  match httpGet E url with
  | inl err => (w, inl err)
  | inr resp =>
      match parseMetaGoImports (rawTokens E resp) with
      | (_, Some err) => (w, inl err)
      | (imports, None) =>
          if negb (length imports =? 1)%nat
          then (w, inl (Errorf ("Too many imports: " +:+ showImports imports)))
          else (w, inr (nth 0 imports noImport))
      end
  end.

(** ** The fetch of one project: [download] *)

(** How [download] ends: it returns, or it panics with an error. *)
Inductive Outcome : Type :=
| Done
| Panic (err : error).

(** [pj.subdirTable] as [download] fills it from [pj.Packages]. *)
Definition mkTable (packages : list string) : gmap string bool :=
  fold_left (fun t dir => <[(if String.eqb dir "." then "" else dir) := true]> t)
            packages ∅.

Definition withTable (pj : project) : project :=
  {| Name := Name pj; Branch := Branch pj; Revision := Revision pj;
     Version := Version pj; Source := Source pj; Packages := Packages pj;
     subdirTable := mkTable (Packages pj) |}.

(** The string [download] classifies. *)
Definition srcOf (pj : project) : string :=
  if (String.length (Source pj) =? 0)%nat then Name pj else Source pj.

(** What [download] does with the result of [dlGit]: on an error it writes
    the log, the name of the project and the error to the standard error
    (of the error, its text; the stack that [%+v] adds is left out) and
    panics. *)
Definition afterGit (pj : project) (r : World * (option string * option error))
  : World * Outcome :=
  match r with
  | (w, (_, None)) => (w, Done)
  | (w, (log, Some err)) =>
      let w := match log with Some l => emit (Stderr l) w | None => w end in
      let w := emit (Stderr (Name pj)) w in
      let w := emit (Stderr (errorText err)) w in
      (w, Panic err)
  end.

(** The URL [download] hands to [dlGit] for a source on gopkg.in. *)
Definition gopkgUrl (src : string) : string :=
  if negb (HasPrefix src "https://") then "https://" +:+ src else "".

(** [download], without the [swg.Done()] it defers: the wait group belongs
    to [main], which runs the projects concurrently and is not embedded. *)
Definition download (E : Env) (pj0 : project) (w : World) : World * Outcome :=
  let pj := withTable pj0 in
  let src := srcOf pj in
  match FindStringSubmatch githubRegexp src with
  | Some m =>
      let w := emit (Println ["Downloading from github:"; Name pj; "("; src; Revision pj; ")"]) w in
      match dlGithub E pj (group m 1) (group m 2) w with
      | (w, Some err) => (w, Panic err)
      | (w, None) => (w, Done)
      end
  | None =>
      match FindStringSubmatch gopkgRegexp src with
      | Some _ =>
          let w := emit (Println ["Downloading from gopkg:"; Name pj; "("; src; Revision pj; ")"]) w in
          afterGit pj (dlGit E pj (gopkgUrl src) w)
      | None =>
          match getGoImports E src w with
          | (w, inl err) => (w, Panic err)
          | (w, inr meta) =>
              if negb (String.eqb (ToLower (VCS meta)) "git")
              then (w, Panic (Errorf ("Unsupported VCS type: " +:+ VCS meta)))
              else
                let w := emit (Println ["Downloading from go-imports:"; Name pj; "(";
                                        RepoRoot meta; Revision pj; ")"]) w in
                afterGit pj (dlGit E pj (RepoRoot meta) w)
          end
      end
  end.

(** ** Sample data

    A small environment, used to run the program on concrete inputs: the
    working directory is [/w], the umask is 022, every request is answered
    with status 200,
    every body decodes to the archive [items] and to the tokens [toks], and
    the git client creates the directory it clones into and fails when it is
    given no URL. *)

Definition sampleGit (args : list string) (dir : string) (f : Os.FS)
  : Os.FS * option string * option error :=
  match args with
  | ["clone"; url; dest] =>
      if String.eqb url "" then (f, Some "", Some (Opaque "exit status 128"))
      else ((Os.MkdirAll "/w" f dest).1, Some "", None)
  | _ => (f, Some "", None)
  end.

Definition sampleEnv (items : list TarItem) (toks : list Token) : Env :=
  {| wd := "/w";
     verbose := false;
     umask := 18;
     httpGet := fun _ => inr {| StatusCode := 200; Status := "200 OK";
                                Body := ""; BodyErr := None |};
     tarReader := fun _ => inr (items, None);
     rawTokens := fun _ => (toks, None);
     git := sampleGit |}.

Definition sampleItem (name : string) (flag : ascii) (link data : string) : TarItem :=
  {| hdr := {| hName := name; Typeflag := flag; Mode := 420; Linkname := link;
               AccessTime := 0; ModTime := 0 |};
     content := data;
     contentErr := None |}.

Definition sampleProject (name source : string) (packages : list string) : project :=
  {| Name := name; Branch := ""; Revision := "abc"; Version := "";
     Source := source; Packages := packages; subdirTable := ∅ |}.

Definition emptyWorld : World := {| fs := ∅; trace := [] |}.

(** A world in which the working directory exists and nothing else. *)
Definition wdWorld : World := {| fs := {[ ["w"] := Os.Directory ]}; trace := [] |}.

(** An archive as GitHub serves them: one top directory [W], a file in it,
    a package [foo] and a package [foo/bar]. *)
Definition sampleArchive : list TarItem :=
  [ sampleItem "pax_global_header" "g"%char "" "";
    sampleItem "W/" TypeDir "" "";
    sampleItem "W/README" TypeReg "" "hello";
    sampleItem "W/foo/" TypeDir "" "";
    sampleItem "W/foo/a.txt" TypeReg "" "aaa";
    sampleItem "W/foo/bar/" TypeDir "" "";
    sampleItem "W/foo/bar/b.go" TypeReg "" "bbb" ].

(** An archive with a symbolic link [W/l] whose recorded link name is [x],
    followed by a file. *)
Definition linkArchive : list TarItem :=
  [ sampleItem "W/" TypeDir "" "";
    sampleItem "W/l" TypeSymlink "x" "";
    sampleItem "W/a.txt" TypeReg "" "aaa" ].

(** The head of a page that answers [?go-get=1] for [example.org/pkg]: a
    [go-import] tag for a git repository of its own, and a [go-source] tag
    that names the GitHub mirror. *)
Definition sampleHead : list Token :=
  [ StartElement "html" [];
    StartElement "head" [];
    StartElement "meta" [("name", "go-import");
                         ("content", "example.org/pkg git https://example.org/pkg.git")];
    StartElement "meta" [("name", "go-source");
                         ("content", "example.org/pkg https://github.com/o/p/ https://github.com/o/p/tree/master")];
    EndElement "head";
    StartElement "body" [] ].

(** The tag that takes the place of [m0] when a [go-source] tag matched
    [githubRegexp] with result [m]. *)
Definition githubImport (m0 : metaImport) (m : list string) : metaImport :=
  {| Prefix := Prefix m0; VCS := "git"; RepoRoot := group m 0 |}.

(** A page whose only tag gives the kind of the repository in capitals. *)
Definition capitalsHead : list Token :=
  [ StartElement "head" [];
    StartElement "meta" [("name", "go-import");
                         ("content", "example.org/pkg GIT https://example.org/pkg.git")];
    EndElement "head" ].

(** A page whose only tag names a Subversion repository. *)
Definition svnHead : list Token :=
  [ StartElement "meta" [("name", "go-import");
                         ("content", "example.org/pkg svn https://example.org/svn/pkg")] ].

(** The events a call added to the trace: those of [w'] after those of
    [w]. *)
Definition added (w w' : World) : list Event := drop (length (trace w)) (trace w').

(** The events of the extraction loop: output and time stamps. *)
Definition loopEvent (e : Event) : Prop :=
  match e with
  | Stdout _ | Chtimes _ _ _ => True
  | _ => False
  end.

(** What [dlGithub] has in hand when it turns to the file system: the error
    it returns before that, or the entries of the archive.  It depends on the
    answers of the environment alone. *)
Definition fetched (E : Env) (pj : project) (user repo : string)
  : error + (list TarItem * option error) :=
  let url := tarballUrl user repo (Revision pj) in
  match httpGet E url with
  | inl err => inl (WithStack err)
  | inr resp =>
      if negb (StatusCode resp =? 200) then
        inl (Errorf ("failed getting tarball: status " +:+ Status resp
                     +:+ " (URL: " +:+ url +:+ ")"))
      else
        match BodyErr resp with
        | Some err => inl err
        | None =>
            match tarReader E (Body resp) with
            | inl err => inl (WithStack err)
            | inr r => inr r
            end
        end
  end.

(** Two file systems hold the same objects at and below [base], and in
    both every directory above [base] exists. *)
Definition agree (base : Os.loc) (F G : Os.FS) : Prop :=
  (∀ p, base `prefix_of` p → F !! p = G !! p)
  ∧ (∀ q, q ≠ [] → q `prefix_of` base →
          F !! q = Some Os.Directory ∧ G !! q = Some Os.Directory).

(** No entry that the loop writes is a symbolic link, and every one of
    them has its target at or below [baseDir]. *)
Definition staysInside (E : Env) (baseDir : string) (table : gmap string bool)
    (items : list TarItem) : Prop :=
  Forall (fun it => ∀ target,
            entryTarget baseDir table (hName (hdr it)) = Some target →
            Typeflag (hdr it) ≠ TypeSymlink
            ∧ Os.resolve (wd E) baseDir `prefix_of` Os.resolve (wd E) target)
         items.

Definition notExec (e : Event) : Prop := ∀ cmd dir, e ≠ Exec cmd dir.

Definition notCallDlGit (e : Event) : Prop := ∀ path, e ≠ CallDlGit path.

(** ** Further definitions *)

(** The greedy repetition inside [matchHere], on its own: the longest run
    of characters of [k], one at least, after which [rest] matches. *)
Definition manyRun (k : class) (rest : string -> option (string * list string))
  : string -> option (string * (string * list string)) :=
  fix many (s : string) : option (string * (string * list string)) :=
    match s with
    | String a s' =>
        if inClass k a then
          match many s' with
          | Some (run, r) => Some (String a run, r)
          | None => pair (String a "") <$> rest s'
          end
        else None
    | EmptyString => None
    end.

(** A character that the groups of [githubRegexp] allow. *)
Definition groupChar (c : ascii) : Prop :=
  c ≠ slash ∧ c ≠ " "%char ∧ c ≠ newline.

(** A string made of such characters, one at least. *)
Definition segment (s : string) : Prop :=
  s ≠ "" ∧ Forall groupChar (String.list_ascii_of_string s).

(** [charsetReader], which the decoder calls for a document that declares a
    charset other than UTF-8.  [Reader] is the type of [io.Reader] values
    and [quoted] is the verb [%q] of [fmt] on a string. *)
Section CharsetReader.

Variable Reader : Type.
Variable quoted : string -> string.

Definition charsetReader (charset : string) (input : Reader) : error + Reader :=
  if String.eqb (ToLower charset) "ascii" then inr input
  else inl (Errorf ("can't decode XML document using charset " +:+ quoted charset)).

End CharsetReader.

(** The tokens at which [parseMetaGoImports] returns: the start of the body
    and the end of the head. *)
Definition isStop (t : Token) : bool :=
  match t with
  | StartElement name _ => EqualFold name "body"
  | EndElement name => EqualFold name "head"
  | OtherToken => false
  end.

(** The start of a [meta] element. *)
Definition isMeta (t : Token) : bool :=
  match t with
  | StartElement name _ => EqualFold name "meta"
  | _ => false
  end.

(** A tag none of whose fields is empty. *)
Definition tagOk (m : metaImport) : Prop :=
  Prefix m ≠ "" ∧ VCS m ≠ "" ∧ RepoRoot m ≠ "".

(** An event that is not a request. *)
Definition notHttp (e : Event) : Prop := ∀ url, e ≠ HttpGet url.

(** The segments of a path that name something: those that are neither
    empty nor [.]. *)
Definition names (xs : list string) : list string :=
  List.filter (fun c => negb (String.eqb c "" || String.eqb c ".")) xs.

(** Outside [B], [G] has what [F] has, and nothing more than directories
    above [B] that [F] lacks. *)
Definition restKept (B : Os.loc) (F G : Os.FS) : Prop :=
  ∀ p, ¬ B `prefix_of` p →
       G !! p = F !! p
       ∨ (F !! p = None ∧ G !! p = Some Os.Directory ∧ p `prefix_of` B).

(** An archive without symbolic links in which no name has a [..] segment
    after the first. *)
Definition plainArchive (items : list TarItem) : Prop :=
  Forall (fun it => Typeflag (hdr it) ≠ TypeSymlink
                    ∧ ".." ∉ drop 1 (Split (hName (hdr it)))) items.

(** A string without separator: it is its own only segment. *)
Definition whole (s : string) : Prop := Split s = [s].

(** A segment that names something. *)
Definition proper (c : string) : Prop := c ≠ "" ∧ c ≠ "." ∧ c ≠ "..".

(** A world in which another package, [q], is vendored already. *)
Definition otherWorld : World :=
  {| fs := {[ ["w"] := Os.Directory;
              ["w"; "vendor"] := Os.Directory;
              ["w"; "vendor"; "q"] := Os.Directory;
              ["w"; "vendor"; "q"; "q.go"] := Os.RegFile 420 "package q" ]};
     trace := [] |}.


(** A symbolic link. *)
Definition isLink (x : Os.node) : bool :=
  match x with
  | Os.SymLink _ => true
  | _ => false
  end.

(** No symbolic link at [p] or above it.  On such a path the kernel has no
    link to follow, and the operations of [Os], which follow none, do what
    it does. *)
Definition linkFree (F : Os.FS) (p : Os.loc) : Prop :=
  ∀ q x, q `prefix_of` p → F !! q = Some x → isLink x = false.

(** No symbolic link at all. *)
Definition noLinks (F : Os.FS) : Prop :=
  map_Forall (fun _ x => isLink x = false) F.

(** An environment in which the page that answers a discovery request
    cannot be decoded: the page is the one character [<], at which
    [d.RawToken()] fails before it has returned a token. *)
Definition brokenPage : Env :=
  {| wd := "/w";
     verbose := false;
     umask := 18;
     httpGet := fun _ => inr {| StatusCode := 200; Status := "200 OK";
                                Body := "<"; BodyErr := None |};
     tarReader := fun _ => inr ([], None);
     rawTokens := fun _ => ([], Some (Opaque "XML syntax error on line 1: unexpected EOF"));
     git := sampleGit |}.

(** A page with two [go-import] tags. *)
Definition twoTagsHead : list Token :=
  [ StartElement "meta" [("name", "go-import");
                         ("content", "example.org/pkg git https://example.org/a")];
    StartElement "meta" [("name", "go-import");
                         ("content", "example.org/pkg hg https://example.org/b")] ].

(** ** The package filter *)

(** [name] is not the top directory of the archive: its path below [baseDir]
    is not [baseDir] itself. *)
Definition nonRoot (baseDir name : string) : Prop :=
  Join [baseDir; Join (drop 1 (Split name))] ≠ baseDir.

(** The loop writes the entry named [name]: it reaches the [switch] with a
    target path. *)
Definition written (baseDir : string) (table : gmap string bool) (name : string) : Prop :=
  is_Some (entryTarget baseDir table name).

(** The key [download] enters in the table for a package. *)
Definition tableKey (dir : string) : string :=
  if String.eqb dir "." then "" else dir.

Section Filter.

Implicit Types (table : gmap string bool) (name baseDir dir : string).

Lemma tableGet_empty k : tableGet ∅ k = false.
Proof. unfold tableGet. by rewrite lookup_empty. Qed.

Lemma tableGet_insert table k k' :
  tableGet (<[k := true]> table) k' = bool_decide (k = k') || tableGet table k'.
Proof.
  unfold tableGet. destruct (decide (k = k')) as [->|Hne].
  - rewrite lookup_insert_eq. by rewrite bool_decide_eq_true_2.
  - rewrite lookup_insert_ne by done. by rewrite bool_decide_eq_false_2.
Qed.

Lemma tableGet_fold packages : ∀ table k,
  tableGet (fold_left (fun t dir => <[tableKey dir := true]> t) packages table) k = true
  ↔ tableGet table k = true ∨ ∃ dir, dir ∈ packages ∧ tableKey dir = k.
Proof.
  induction packages as [|d ps IH]; intros table k; simpl.
  - split; [by left|]. intros [H|(dir & Hin & _)]; [done|]. by apply elem_of_nil in Hin.
  - rewrite IH, tableGet_insert, orb_true_iff, bool_decide_eq_true. split.
    + intros [[Hk|Ht]|(dir & Hin & Hk)].
      * right. exists d. split; [apply list_elem_of_here|done].
      * by left.
      * right. exists dir. split; [by apply list_elem_of_further|done].
    + intros [Ht|(dir & Hin & Hk)]; [left; by right|].
      apply elem_of_cons in Hin as [->|Hin]; [left; by left|].
      right. by exists dir.
Qed.

(** The table of [download] holds exactly the keys of the packages. *)
Lemma tableGet_mkTable packages k :
  tableGet (mkTable packages) k = true ↔ ∃ dir, dir ∈ packages ∧ tableKey dir = k.
Proof.
  unfold mkTable. change (fun t dir => <[(if String.eqb dir "." then "" else dir) := true]> t)
    with (fun (t : gmap string bool) dir => <[tableKey dir := true]> t).
  rewrite tableGet_fold, tableGet_empty. split; [intros [?|?]; done|by right].
Qed.

(** An entry is written exactly when it passes the package filter (which
    only applies to paths of more than two segments) and is not the top
    directory. *)
Lemma entryTarget_Some baseDir table name :
  written baseDir table name
  ↔ ((length (Split name) ≤ 2)%nat ∨ tableGet table (pkgOf (Split name)) = true)
    ∧ nonRoot baseDir name.
Proof.
  unfold written, entryTarget, nonRoot.
  destruct (2 <? length (Split name))%nat eqn:Hlen; simpl.
  - apply Nat.ltb_lt in Hlen.
    destruct (tableGet table (pkgOf (Split name))) eqn:Hget; simpl.
    + destruct (String.eqb_spec (Join [baseDir; Join (drop 1 (Split name))]) baseDir) as [Heq|Hne].
      * split; [intros [? ?]; done|]. intros [_ ?]; done.
      * split; [intros _; split; [by right|done]|]. by eexists.
    + split; [intros [? ?]; done|]. intros [[?|?] _]; [lia|done].
  - apply Nat.ltb_ge in Hlen.
    destruct (String.eqb_spec (Join [baseDir; Join (drop 1 (Split name))]) baseDir) as [Heq|Hne].
    + split; [intros [? ?]; done|]. intros [_ ?]; done.
    + split; [intros _; split; [by left|done]|]. by eexists.
Qed.

End Filter.

Section FilterClaims.

Implicit Types (pj : project) (name baseDir : string).

Lemma extract_skip E baseDir table it rest fin w :
  ¬ written baseDir table (hName (hdr it)) →
  extract E baseDir table (it :: rest) fin w
  = nextEntry it w (extract E baseDir table rest fin).
Proof.
  unfold written. intros Hno. simpl.
  destruct (entryTarget baseDir table (hName (hdr it))); [|done].
  exfalso. apply Hno. by eexists.
Qed.

(** C1, as the code has it: for a project without packages the table is
    empty, and an entry of the archive is written exactly when its stored
    path has at most two segments and it is not the top directory; the loop
    passes over every entry of more than two segments and goes on to the
    next one, leaving the world as it is. *)
Theorem empty_packages_written pj baseDir name :
  Packages pj = [] →
  subdirTable (withTable pj) = ∅
  ∧ (written baseDir (subdirTable (withTable pj)) name
     ↔ (length (Split name) ≤ 2)%nat ∧ nonRoot baseDir name)
  ∧ ∀ E it rest fin w,
      hName (hdr it) = name → (2 < length (Split name))%nat →
      extract E baseDir (subdirTable (withTable pj)) (it :: rest) fin w
      = nextEntry it w (extract E baseDir (subdirTable (withTable pj)) rest fin).
Proof.
  intros Hpk. assert (subdirTable (withTable pj) = ∅) as Htab.
  { simpl. by rewrite Hpk. }
  rewrite Htab. split; [done|]. split.
  - rewrite entryTarget_Some, tableGet_empty. split.
    + intros [[Hle|Hf] Hroot]; [done|discriminate].
    + intros [Hle Hroot]. split; [by left|done].
  - intros E it rest fin w Hname Hlen. apply extract_skip.
    rewrite Hname, entryTarget_Some, tableGet_empty.
    intros [[Hle|Hf] _]; [lia|discriminate].
Qed.

(** C2, as the code has it: an entry whose stored path has more than two
    segments is written exactly when the directory it lies in below the top
    directory of the archive (all the segments between the first and the
    last, joined) is the key of one of the packages, and it is not the top
    directory. *)
Theorem nested_entry_written pj baseDir name :
  (2 < length (Split name))%nat →
  written baseDir (subdirTable (withTable pj)) name
  ↔ (∃ dir, dir ∈ Packages pj ∧ tableKey dir = pkgOf (Split name))
    ∧ nonRoot baseDir name.
Proof.
  intros Hlen. rewrite entryTarget_Some. simpl. rewrite tableGet_mkTable. split.
  - intros [[Hle|Hin] Hroot]; [lia|done].
  - intros [Hin Hroot]. split; [by right|done].
Qed.

End FilterClaims.

Lemma empty_packages_written_witness :
  let pj := sampleProject "github.com/o/p" "" [] in
  Packages pj = [] ∧
  (written "/w/vendor/github.com/o/p" (subdirTable (withTable pj)) "W/README"
   ↔ (length (Split "W/README") ≤ 2)%nat ∧ nonRoot "/w/vendor/github.com/o/p" "W/README").
Proof.
  split; [reflexivity|].
  apply (empty_packages_written (sampleProject "github.com/o/p" "" [])
           "/w/vendor/github.com/o/p" "W/README"). reflexivity.
Defined.

(** C1 fails as stated: the project has no packages, [W/foo/a.txt] is not
    the top directory, and extraction passes over it; after the fetch the
    file [README] is there and [foo/a.txt] is not. *)
Lemma empty_packages_skip_nested :
  let pj := sampleProject "github.com/o/p" "" [] in
  let E := sampleEnv sampleArchive [] in
  let baseDir := Join [vendorDir E; Name pj] in
  let after := fs (download E pj emptyWorld).1 in
  Packages pj = []
  ∧ nonRoot baseDir "W/foo/a.txt"
  ∧ entryTarget baseDir (subdirTable (withTable pj)) "W/foo/a.txt" = None
  ∧ after !! Os.resolve (wd E) (baseDir +:+ "/README") = Some (Os.RegFile 420 "hello")
  ∧ after !! Os.resolve (wd E) (baseDir +:+ "/foo/a.txt") = None.
Proof. vm_compute. repeat split; discriminate. Qed.

Lemma nested_entry_written_witness :
  let pj := sampleProject "github.com/o/p" "" ["foo/bar"] in
  (2 < length (Split "W/foo/bar/b.go"))%nat ∧
  (written "/w/vendor/github.com/o/p" (subdirTable (withTable pj)) "W/foo/bar/b.go"
   ↔ (∃ dir, dir ∈ Packages pj ∧ tableKey dir = pkgOf (Split "W/foo/bar/b.go"))
     ∧ nonRoot "/w/vendor/github.com/o/p" "W/foo/bar/b.go").
Proof.
  split; [vm_compute; lia|].
  apply (nested_entry_written (sampleProject "github.com/o/p" "" ["foo/bar"])
           "/w/vendor/github.com/o/p" "W/foo/bar/b.go").
  vm_compute; lia.
Defined.

(** C2 fails as stated, in both directions.  With the package [foo] alone,
    the entry [W/foo/bar/b.go] has more than two segments and its second
    segment [foo] is in the table, yet it is not written.  With the package
    [foo/bar] alone, the second segment [foo] is not in the table, yet the
    entry is written. *)
Lemma second_segment_not_decisive :
  let baseDir := "/w/vendor/github.com/o/p" in
  let name := "W/foo/bar/b.go" in
  let t1 := subdirTable (withTable (sampleProject "github.com/o/p" "" ["foo"])) in
  let t2 := subdirTable (withTable (sampleProject "github.com/o/p" "" ["foo/bar"])) in
  (2 < length (Split name))%nat
  ∧ nth 1 (Split name) "" = "foo"
  ∧ (t1 ≠ ∅ ∧ tableGet t1 "foo" = true ∧ entryTarget baseDir t1 name = None)
  ∧ (t2 ≠ ∅ ∧ tableGet t2 "foo" = false
     ∧ entryTarget baseDir t2 name = Some "/w/vendor/github.com/o/p/foo/bar/b.go").
Proof.
  cbv zeta. split; [vm_compute; lia|]. split; [reflexivity|].
  split; (split; [|split; vm_compute; reflexivity]).
  - intros H. apply (f_equal (fun t => tableGet t "foo")) in H. vm_compute in H. discriminate.
  - intros H. apply (f_equal (fun t => tableGet t "foo/bar")) in H. vm_compute in H. discriminate.
Qed.

(** ** Meta-import discovery *)

Section Discovery.

Implicit Types (imports : list metaImport) (attrs : list (string * string)).

Lemma EqualFold_meta_not_body name :
  EqualFold name "meta" = true → EqualFold name "body" = false.
Proof.
  unfold EqualFold. intros H%bool_decide_eq_true. apply bool_decide_eq_false.
  rewrite H. vm_compute. discriminate.
Qed.

(** A [go-source] tag with a GitHub reference, met with one tag collected. *)
Lemma metaStep_replace m0 attrs m :
  attrValue attrs "name" = "go-source" →
  FindStringSubmatch githubRegexp (attrValue attrs "content") = Some m →
  metaStep [m0] attrs = [githubImport m0 m].
Proof.
  intros Hname Hm. unfold metaStep. rewrite Hname, Hm. reflexivity.
Qed.

(** Whatever else a [meta] element does, the tags collected so far stay,
    in their order, at the front. *)
Lemma metaStep_cases imports attrs :
  imports `prefix_of` metaStep imports attrs
  ∨ ∃ m0 m, imports = [m0]
            ∧ attrValue attrs "name" = "go-source"
            ∧ FindStringSubmatch githubRegexp (attrValue attrs "content") = Some m
            ∧ metaStep imports attrs = [githubImport m0 m].
Proof.
  unfold metaStep.
  destruct (String.eqb_spec (attrValue attrs "name") "go-source") as [Hsrc|Hsrc]; simpl.
  - destruct imports as [|m0 [|m1 rest]]; simpl.
    + rewrite Hsrc. simpl. by left.
    + destruct (FindStringSubmatch githubRegexp (attrValue attrs "content")) as [m|] eqn:Hm.
      * right. by exists m0, m.
      * rewrite Hsrc. simpl. by left.
    + rewrite Hsrc. simpl. by left.
  - left. destruct (negb _); [done|].
    destruct (Fields _) as [|f0 [|f1 [|f2 [|f3 fs']]]]; try done.
    by apply prefix_app_r.
Qed.

(** C3: with exactly one tag collected, a [meta] element named [go-source]
    whose content matches [githubRegexp] replaces that tag by one with the
    same prefix, the kind [git] and the matched text as repository root;
    and a turn of the loop that does not keep the tags collected so far at
    the front of the list is such a replacement. *)
Theorem go_source_replaces_single_tag :
  (∀ m0 name attrs m,
      EqualFold name "meta" = true →
      attrValue attrs "name" = "go-source" →
      FindStringSubmatch githubRegexp (attrValue attrs "content") = Some m →
      tokenStep [m0] (StartElement name attrs)
      = Some [{| Prefix := Prefix m0; VCS := "git"; RepoRoot := group m 0 |}])
  ∧ (∀ imports t imports',
      tokenStep imports t = Some imports' →
      ¬ imports `prefix_of` imports' →
      ∃ name attrs m0 m,
        t = StartElement name attrs
        ∧ EqualFold name "meta" = true
        ∧ attrValue attrs "name" = "go-source"
        ∧ imports = [m0]
        ∧ FindStringSubmatch githubRegexp (attrValue attrs "content") = Some m
        ∧ imports' = [{| Prefix := Prefix m0; VCS := "git"; RepoRoot := group m 0 |}]).
Proof.
  split.
  - intros m0 name attrs m Hmeta Hname Hm. unfold tokenStep.
    rewrite (EqualFold_meta_not_body _ Hmeta), Hmeta. simpl.
    by rewrite (metaStep_replace m0 attrs m).
  - intros imports t imports' Hstep Hnot. destruct t as [name attrs|name|]; simpl in Hstep.
    + destruct (EqualFold name "body"); [discriminate|].
      destruct (EqualFold name "meta") eqn:Hmeta; simpl in Hstep.
      * injection Hstep as <-.
        destruct (metaStep_cases imports attrs) as [Hpre|(m0 & m & -> & Hname & Hm & Heq)];
          [done|].
        exists name, attrs, m0, m. by rewrite Heq.
      * injection Hstep as <-. by destruct Hnot.
    + destruct (EqualFold name "head"); [discriminate|].
      injection Hstep as <-. by destruct Hnot.
    + injection Hstep as <-. by destruct Hnot.
Qed.

(** An error of the decoder only comes back when no tag was collected. *)
Lemma parseLoop_error toks fin : ∀ imports err,
  (parseLoop imports toks fin).2 = Some err → (parseLoop imports toks fin).1 = [].
Proof.
  induction toks as [|t rest IH]; intros imports err; simpl.
  - destruct fin as [e|]; [|discriminate].
    destruct imports; simpl; [done|discriminate].
  - destruct (tokenStep imports t); [apply IH|discriminate].
Qed.

(** C4: [getGoImports] returns a tag exactly when the request succeeds
    and parsing collects exactly one tag, which is the one returned.  When
    parsing ends without an error and with another number of tags, it
    returns the error whose text is [Too many imports: ] followed by the
    tags that were collected, each as its three fields between braces, the
    whole between brackets.  When parsing fails, no tag was collected and
    the error of the decoder is returned as it is; when the request fails,
    its error is. *)
Theorem getGoImports_one_tag (E : Env) (path : string) (w : World) :
  let r := (getGoImports E path w).2 in
  let get := httpGet E ("https://" +:+ path +:+ "?go-get=1") in
  (∀ m, r = inr m
        ↔ ∃ resp, get = inr resp ∧ (parseMetaGoImports (rawTokens E resp)).1 = [m])
  ∧ (∀ resp imports,
        get = inr resp →
        parseMetaGoImports (rawTokens E resp) = (imports, None) →
        length imports ≠ 1%nat →
        r = inl (Errorf
                   ("Too many imports: ["
                    +:+ String.concat " "
                          (map (fun m => "{" +:+ Prefix m +:+ " " +:+ VCS m +:+ " "
                                         +:+ RepoRoot m +:+ "}") imports)
                    +:+ "]")))
  ∧ (∀ resp imports err,
        get = inr resp →
        parseMetaGoImports (rawTokens E resp) = (imports, Some err) →
        imports = [] ∧ r = inl err)
  ∧ (∀ err, get = inl err → r = inl err).
Proof.
  cbv zeta. unfold getGoImports.
  destruct (httpGet E ("https://" +:+ path +:+ "?go-get=1")) as [e|resp] eqn:Hget.
  { simpl. split; [|split; [|split]].
    - intros m. split; [discriminate|]. intros (resp & Hresp & _). discriminate.
    - intros resp imports Hresp. discriminate.
    - intros resp imports err Hresp. discriminate.
    - by intros err [= ->]. }
  destruct (parseMetaGoImports (rawTokens E resp)) as [imports perr] eqn:Hparse.
  assert (∀ err, perr = Some err → imports = []) as Hnil.
  { intros err ->. unfold parseMetaGoImports in Hparse.
    pose proof (parseLoop_error (rawTokens E resp).1 (rawTokens E resp).2 [] err) as H.
    rewrite Hparse in H. by apply H. }
  split; [|split; [|split]].
  - intros m. split.
    + intros Hr. exists resp. split; [done|]. rewrite Hparse. simpl.
      destruct perr as [e|]; [discriminate|].
      destruct imports as [|m1 [|m2 rest]]; simpl in Hr; try discriminate.
      by injection Hr as ->.
    + intros (resp' & Hresp & Hone). injection Hresp as <-.
      rewrite Hparse in Hone. simpl in Hone. subst imports.
      destruct perr as [e|]; [by specialize (Hnil e eq_refl)|]. reflexivity.
  - intros resp' imports' Hresp Hp Hlen. injection Hresp as <-.
    rewrite Hparse in Hp. injection Hp as -> ->.
    destruct (length imports' =? 1)%nat eqn:Hl; [by apply Nat.eqb_eq in Hl|].
    reflexivity.
  - intros resp' imports' err Hresp Hp. injection Hresp as <-.
    rewrite Hparse in Hp. injection Hp as -> ->.
    split; [by apply (Hnil err)|]. reflexivity.
  - discriminate.
Qed.

End Discovery.

Lemma go_source_replaces_single_tag_witness :
  let m0 := {| Prefix := "example.org/pkg"; VCS := "git";
               RepoRoot := "https://example.org/pkg.git" |} in
  let attrs := [("name", "go-source");
                ("content", "example.org/pkg https://github.com/o/p/ https://github.com/o/p/tree/master")] in
  EqualFold "META" "meta" = true
  ∧ attrValue attrs "name" = "go-source"
  ∧ FindStringSubmatch githubRegexp (attrValue attrs "content")
    = Some ["github.com/o/p"; "o"; "p"]
  ∧ tokenStep [m0] (StartElement "META" attrs)
    = Some [{| Prefix := "example.org/pkg"; VCS := "git"; RepoRoot := "github.com/o/p" |}]
  ∧ parseMetaGoImports (sampleHead, None)
    = ([{| Prefix := "example.org/pkg"; VCS := "git"; RepoRoot := "github.com/o/p" |}], None).
Proof.
  cbv zeta. split; [reflexivity|]. split; [reflexivity|]. split; [reflexivity|].
  split; [|reflexivity].
  apply (proj1 go_source_replaces_single_tag
           {| Prefix := "example.org/pkg"; VCS := "git";
              RepoRoot := "https://example.org/pkg.git" |}
           "META" _ ["github.com/o/p"; "o"; "p"]); reflexivity.
Defined.

Lemma getGoImports_one_tag_witness :
  (getGoImports (sampleEnv [] sampleHead) "example.org/pkg" emptyWorld).2
  = inr {| Prefix := "example.org/pkg"; VCS := "git"; RepoRoot := "github.com/o/p" |}
  ∧ (parseMetaGoImports (rawTokens (sampleEnv [] twoTagsHead)
                           {| StatusCode := 200; Status := "200 OK";
                              Body := ""; BodyErr := None |})).1
    = [{| Prefix := "example.org/pkg"; VCS := "git"; RepoRoot := "https://example.org/a" |};
       {| Prefix := "example.org/pkg"; VCS := "hg"; RepoRoot := "https://example.org/b" |}]
  ∧ (getGoImports (sampleEnv [] twoTagsHead) "example.org/pkg" emptyWorld).2
    = inl (Errorf "Too many imports: [{example.org/pkg git https://example.org/a} {example.org/pkg hg https://example.org/b}]")
  ∧ (getGoImports (sampleEnv [] []) "example.org/pkg" emptyWorld).2
    = inl (Errorf "Too many imports: []").
Proof.
  split; [|split; [reflexivity|split]].
  - apply (proj1 (getGoImports_one_tag (sampleEnv [] sampleHead) "example.org/pkg" emptyWorld)).
    eexists. split; reflexivity.
  - pose proof (proj1 (proj2 (getGoImports_one_tag (sampleEnv [] twoTagsHead)
                                "example.org/pkg" emptyWorld))
                  {| StatusCode := 200; Status := "200 OK"; Body := ""; BodyErr := None |}
                  [{| Prefix := "example.org/pkg"; VCS := "git";
                      RepoRoot := "https://example.org/a" |};
                   {| Prefix := "example.org/pkg"; VCS := "hg";
                      RepoRoot := "https://example.org/b" |}]
                  eq_refl eq_refl) as Htwo.
    apply Htwo. discriminate.
  - pose proof (proj1 (proj2 (getGoImports_one_tag (sampleEnv [] []) "example.org/pkg"
                                emptyWorld))
                  {| StatusCode := 200; Status := "200 OK"; Body := ""; BodyErr := None |}
                  [] eq_refl eq_refl) as Hzero.
    apply Hzero. discriminate.
Defined.

(** The claim does not hold when the decoder fails before any tag: no tag
    was collected, and the error returned is that of the decoder, which lists
    nothing. *)
Lemma decoder_error_is_not_a_listing :
  (parseMetaGoImports (rawTokens brokenPage
                         {| StatusCode := 200; Status := "200 OK";
                            Body := "<"; BodyErr := None |})).1 = []
  ∧ (getGoImports brokenPage "example.org/pkg" emptyWorld).2
    = inl (Opaque "XML syntax error on line 1: unexpected EOF")
  ∧ errorText (Opaque "XML syntax error on line 1: unexpected EOF")
    ≠ "Too many imports: []".
Proof. split; [reflexivity|]. split; [reflexivity|]. discriminate. Qed.

(** ** Traces *)

Section Traces.

Variable E : Env.

Lemma added_app w w' evs : trace w' = trace w ++ evs → added w w' = evs.
Proof. unfold added. intros ->. by rewrite drop_app_length. Qed.

Lemma writeEntry_trace target it w : trace (writeEntry E target it w).1 = trace w.
Proof.
  unfold writeEntry. repeat case_match; reflexivity.
Qed.

Lemma extract_trace baseDir table items fin : ∀ w,
  ∃ evs, trace (extract E baseDir table items fin w).1 = trace w ++ evs
         ∧ Forall loopEvent evs.
Proof.
  induction items as [|it rest IH]; intros w; simpl.
  - exists []. rewrite app_nil_r. by destruct fin.
  - assert (∀ w0 evs0, trace w0 = trace w ++ evs0 → Forall loopEvent evs0 →
        ∃ evs, trace (nextEntry it w0 (extract E baseDir table rest fin)).1 = trace w ++ evs
               ∧ Forall loopEvent evs) as Hnext.
    { intros w0 evs0 Hw0 Hq0. unfold nextEntry. destruct (contentErr it); [by exists evs0|].
      destruct (IH w0) as (evs & Hevs & Hq). exists (evs0 ++ evs).
      split; [by rewrite Hevs, Hw0, <- app_assoc|by apply Forall_app]. }
    destruct (entryTarget baseDir table (hName (hdr it))) as [target|];
      [|apply (Hnext w []); [by rewrite app_nil_r|constructor]].
    set (w1 := if verbose E then emit (Println ["Writing:"; target]) w else w).
    assert (∃ evs1, trace w1 = trace w ++ evs1 ∧ Forall loopEvent evs1) as (evs1 & Hw1 & Hq1).
    { unfold w1. destruct (verbose E); simpl.
      - eexists. split; [reflexivity|]. by repeat constructor.
      - exists []. by rewrite app_nil_r. }
    pose proof (writeEntry_trace target it w1) as Hwr.
    destruct (writeEntry E target it w1) as [w2 [err|]]; simpl in *.
    + exists evs1. by rewrite Hwr.
    + apply (Hnext _ (evs1 ++ [Chtimes target (AccessTime (hdr it)) (ModTime (hdr it))])).
      * simpl. by rewrite Hwr, Hw1, <- app_assoc.
      * apply Forall_app. split; [done|]. by repeat constructor.
Qed.

(** [dlGithub] does one request and then only what the loop does. *)
Lemma dlGithub_trace pj user repo w :
  ∃ evs, trace (dlGithub E pj user repo w).1
         = trace w ++ CallDlGithub user repo
                   :: HttpGet (tarballUrl user repo (Revision pj)) :: evs
         ∧ Forall loopEvent evs.
Proof.
  unfold dlGithub.
  assert (∀ w', trace w' = (trace w ++ [CallDlGithub user repo])
                           ++ [HttpGet (tarballUrl user repo (Revision pj))] →
          ∃ evs, trace w' = trace w ++ CallDlGithub user repo
                   :: HttpGet (tarballUrl user repo (Revision pj)) :: evs
                 ∧ Forall loopEvent evs) as Hstop.
  { intros w' ->. exists []. split; [by rewrite <- app_assoc|constructor]. }
  destruct (httpGet E _) as [err|resp]; [by apply Hstop|].
  destruct (negb _); [by apply Hstop|].
  destruct (BodyErr resp); [by apply Hstop|].
  destruct (tarReader E _) as [err|[items fin]]; [by apply Hstop|].
  destruct (Os.MkdirAll _ _ _) as [f [err|]]; [by apply Hstop|].
  match goal with |- context [extract E ?b ?t items fin ?w0] =>
    destruct (extract_trace b t items fin w0) as (evs & Hevs & Hq) end.
  exists evs. split; [|done]. rewrite Hevs. simpl. by rewrite <- !app_assoc.
Qed.

Lemma loopEvent_not_git e : loopEvent e → notExec e ∧ notCallDlGit e.
Proof. destruct e; simpl; intros H; try done. Qed.

Lemma loopEvents_not_git evs :
  Forall loopEvent evs → Forall notExec evs ∧ Forall notCallDlGit evs.
Proof.
  intros H. split; eapply Forall_impl; try exact H; intros e He;
    by apply loopEvent_not_git.
Qed.

(** [dlGit] on a path that names a GitHub repository is [dlGithub] on
    the matched owner and repository. *)
Lemma dlGit_github pj path w m :
  FindStringSubmatch githubRegexp path = Some m →
  dlGit E pj path w
  = ((dlGithub E pj (group m 1) (group m 2) (emit (CallDlGit path) w)).1,
     (None, (dlGithub E pj (group m 1) (group m 2) (emit (CallDlGit path) w)).2)).
Proof.
  intros Hm. unfold dlGit. rewrite Hm.
  by destruct (dlGithub E pj (group m 1) (group m 2) (emit (CallDlGit path) w)).
Qed.

(** What [dlGit] adds to the trace: its own call, then either the events
    of [dlGithub], or nothing but runs of the git client. *)
Lemma dlGit_trace pj path w :
  ∃ evs, trace (dlGit E pj path w).1 = trace w ++ CallDlGit path :: evs
         ∧ Forall notCallDlGit evs
         ∧ match FindStringSubmatch githubRegexp path with
           | Some m => ∃ evs', evs = CallDlGithub (group m 1) (group m 2) :: evs'
                               ∧ Forall notExec evs'
           | None => True
           end.
Proof.
  destruct (FindStringSubmatch githubRegexp path) as [m|] eqn:Hm.
  - rewrite (dlGit_github pj path w m Hm). simpl.
    destruct (dlGithub_trace pj (group m 1) (group m 2) (emit (CallDlGit path) w))
      as (evs & Hevs & Hq).
    apply loopEvents_not_git in Hq as [Hexec Hcall].
    eexists. split; [rewrite Hevs; simpl; by rewrite <- app_assoc|]. split.
    + constructor; [done|]. constructor; [done|]. exact Hcall.
    + eexists. split; [reflexivity|]. constructor; [done|]. exact Hexec.
  - unfold dlGit. rewrite Hm.
    destruct (Os.MkdirAll _ _ _) as [f [err|]].
    { exists []. simpl. by repeat split. }
    destruct (git E [_; path; _] _ _) as [[f1 out1] [err1|]].
    { eexists. simpl. rewrite <- app_assoc. split; [reflexivity|].
      split; [|done]. by repeat constructor. }
    destruct (git E _ _ _) as [[f2 out2] [err2|]];
      (eexists; simpl; rewrite <- !app_assoc; split; [reflexivity|];
       split; [|done]; by repeat constructor).
Qed.

Lemma afterGit_trace pj w r :
  ∃ evs, trace (afterGit pj (w, r)).1 = trace w ++ evs
         ∧ Forall notCallDlGit evs ∧ Forall notExec evs.
Proof.
  destruct r as [log [err|]]; simpl.
  - destruct log as [l|]; simpl; rewrite <- ?app_assoc;
      (eexists; split; [reflexivity|]; split; by repeat constructor).
  - exists []. by rewrite app_nil_r.
Qed.

Lemma getGoImports_trace path w :
  trace (getGoImports E path w).1 = trace w ++ [HttpGet ("https://" +:+ path +:+ "?go-get=1")].
Proof.
  unfold getGoImports. repeat case_match; reflexivity.
Qed.

End Traces.

(** ** Dispatch: [dlGit] and [download] *)

Section Dispatch.

Variable E : Env.

Implicit Types (pj : project) (w : World).

Lemma srcOf_withTable pj : srcOf (withTable pj) = srcOf pj.
Proof. reflexivity. Qed.

(** C10: when the path matches [githubRegexp], [dlGit] is [dlGithub] on
    the matched owner and repository, and after its own call and that of
    [dlGithub] nothing it adds to the trace is a run of the git client; a
    run of the git client in what [dlGit] adds to the trace means that the
    path does not match. *)
Theorem dlGit_github_delegates pj path w :
  (∀ m, FindStringSubmatch githubRegexp path = Some m →
     dlGit E pj path w
     = ((dlGithub E pj (group m 1) (group m 2) (emit (CallDlGit path) w)).1,
        (None, (dlGithub E pj (group m 1) (group m 2) (emit (CallDlGit path) w)).2))
     ∧ ∃ evs, added w (dlGit E pj path w).1
              = CallDlGit path :: CallDlGithub (group m 1) (group m 2) :: evs
              ∧ Forall notExec evs)
  ∧ (∀ cmd dir, Exec cmd dir ∈ added w (dlGit E pj path w).1 →
                FindStringSubmatch githubRegexp path = None).
Proof.
  destruct (dlGit_trace E pj path w) as (evs & Hevs & _ & Hmatch).
  rewrite (added_app _ _ _ Hevs). split.
  - intros m Hm. split; [by apply dlGit_github|].
    rewrite Hm in Hmatch. destruct Hmatch as (evs' & -> & Hq). by exists evs'.
  - intros cmd dir Hin.
    destruct (FindStringSubmatch githubRegexp path) as [m|]; [|done].
    destruct Hmatch as (evs' & -> & Hq). exfalso.
    rewrite !elem_of_cons in Hin. destruct Hin as [?|[?|Hin]]; [done|done|].
    rewrite Forall_forall in Hq. by apply (Hq _ Hin cmd dir).
Qed.

(** The three ways of [download], in the order it tries them. *)
Lemma download_github pj w m :
  FindStringSubmatch githubRegexp (srcOf pj) = Some m →
  download E pj w
  = let r := dlGithub E (withTable pj) (group m 1) (group m 2)
               (emit (Println ["Downloading from github:"; Name pj; "("; srcOf pj;
                               Revision pj; ")"]) w) in
    (r.1, match r.2 with Some err => Panic err | None => Done end).
Proof.
  intros Hm. unfold download. rewrite srcOf_withTable, Hm. simpl.
  by destruct (dlGithub _ _ _ _ _) as [w1 [err|]].
Qed.

Lemma download_gopkg pj w g :
  FindStringSubmatch githubRegexp (srcOf pj) = None →
  FindStringSubmatch gopkgRegexp (srcOf pj) = Some g →
  download E pj w
  = afterGit (withTable pj)
      (dlGit E (withTable pj) (gopkgUrl (srcOf pj))
         (emit (Println ["Downloading from gopkg:"; Name pj; "("; srcOf pj;
                         Revision pj; ")"]) w)).
Proof.
  intros Hgh Hgo. unfold download. by rewrite srcOf_withTable, Hgh, Hgo.
Qed.

Lemma download_discovery pj w :
  FindStringSubmatch githubRegexp (srcOf pj) = None →
  FindStringSubmatch gopkgRegexp (srcOf pj) = None →
  download E pj w
  = match getGoImports E (srcOf pj) w with
    | (w1, inl err) => (w1, Panic err)
    | (w1, inr meta) =>
        if negb (String.eqb (ToLower (VCS meta)) "git")
        then (w1, Panic (Errorf ("Unsupported VCS type: " +:+ VCS meta)))
        else afterGit (withTable pj)
               (dlGit E (withTable pj) (RepoRoot meta)
                  (emit (Println ["Downloading from go-imports:"; Name pj; "(";
                                  RepoRoot meta; Revision pj; ")"]) w1))
    end.
Proof.
  intros Hgh Hgo. unfold download. by rewrite srcOf_withTable, Hgh, Hgo.
Qed.

(** C9: for a source that matches [gopkgRegexp] and starts with
    [https://], every call of [dlGit] that [download] makes has the empty
    string as its path; and unless the source matches [githubRegexp], which
    comes first, [download] does call [dlGit], on the empty string. *)
Theorem gopkg_https_source_empty_url pj w :
  is_Some (FindStringSubmatch gopkgRegexp (srcOf pj)) →
  HasPrefix (srcOf pj) "https://" = true →
  gopkgUrl (srcOf pj) = ""
  ∧ (∀ path, CallDlGit path ∈ added w (download E pj w).1 → path = "")
  ∧ (FindStringSubmatch githubRegexp (srcOf pj) = None →
     download E pj w
     = afterGit (withTable pj)
         (dlGit E (withTable pj) ""
            (emit (Println ["Downloading from gopkg:"; Name pj; "("; srcOf pj;
                            Revision pj; ")"]) w))
     ∧ CallDlGit "" ∈ added w (download E pj w).1).
Proof.
  intros [g Hg] Hpre.
  assert (gopkgUrl (srcOf pj) = "") as Hurl by (unfold gopkgUrl; by rewrite Hpre).
  split; [done|].
  destruct (FindStringSubmatch githubRegexp (srcOf pj)) as [m|] eqn:Hm.
  - split; [|done]. intros path. rewrite (download_github pj w m Hm). cbv zeta.
    match goal with |- context [dlGithub E ?p ?u ?r ?w0] =>
      destruct (dlGithub_trace E p u r w0) as (evs & Hevs & Hq) end.
    simpl in Hevs |- *. rewrite <- app_assoc in Hevs. rewrite (added_app _ _ _ Hevs).
    apply loopEvents_not_git in Hq as [_ Hq]. rewrite Forall_forall in Hq.
    simpl. rewrite !elem_of_cons. intros [?|[?|[?|Hin]]]; [done|done|done|].
    by destruct (Hq _ Hin path).
  - rewrite (download_gopkg pj w g Hm Hg), Hurl.
    match goal with |- context [dlGit E ?p ?u ?w0] =>
      destruct (dlGit_trace E p u w0) as (evs & Hevs & Hq & _);
      destruct (dlGit E p u w0) as [w1 r] end.
    destruct (afterGit_trace (withTable pj) w1 r) as (evs' & Hevs' & Hq' & _).
    simpl in Hevs. rewrite Hevs, <- !app_assoc in Hevs'.
    rewrite (added_app _ _ _ Hevs'). simpl. split; [|intros _; split; [done|]].
    + intros path Hin. rewrite !elem_of_cons, elem_of_app in Hin.
      rewrite Forall_forall in Hq, Hq'.
      destruct Hin as [?|[Heq|[Hin|Hin]]]; [done|by injection Heq| |].
      * by destruct (Hq _ Hin path).
      * by destruct (Hq' _ Hin path).
    + rewrite !elem_of_cons. right. by left.
Qed.

(** C5, as the code has it: the kind is compared in lower case.  For a
    source that reaches discovery, a tag whose kind in lower case is not
    [git] makes [download] panic with the error that names the kind, and
    the request of the discovery is all that [download] has done; a tag
    whose kind in lower case is [git] is handed to [dlGit]. *)
Theorem unsupported_vcs_before_clone pj w w1 meta :
  FindStringSubmatch githubRegexp (srcOf pj) = None →
  FindStringSubmatch gopkgRegexp (srcOf pj) = None →
  getGoImports E (srcOf pj) w = (w1, inr meta) →
  (ToLower (VCS meta) ≠ "git" →
     download E pj w = (w1, Panic (Errorf ("Unsupported VCS type: " +:+ VCS meta)))
     ∧ added w (download E pj w).1 = [HttpGet ("https://" +:+ srcOf pj +:+ "?go-get=1")])
  ∧ (ToLower (VCS meta) = "git" →
     download E pj w
     = afterGit (withTable pj)
         (dlGit E (withTable pj) (RepoRoot meta)
            (emit (Println ["Downloading from go-imports:"; Name pj; "(";
                            RepoRoot meta; Revision pj; ")"]) w1))).
Proof.
  intros Hgh Hgo Hget. rewrite (download_discovery pj w Hgh Hgo), Hget.
  pose proof (getGoImports_trace E (srcOf pj) w) as Htr. rewrite Hget in Htr. simpl in Htr.
  destruct (String.eqb_spec (ToLower (VCS meta)) "git") as [Heq|Hne]; simpl.
  - split; [done|]. by intros _.
  - split; [|done]. intros _. split; [done|]. by apply added_app.
Qed.

End Dispatch.

Lemma dlGit_github_delegates_witness :
  let E := sampleEnv sampleArchive [] in
  let pj := withTable (sampleProject "example.org/pkg" "" ["."]) in
  let path := "https://github.com/o/p" in
  FindStringSubmatch githubRegexp path = Some ["github.com/o/p"; "o"; "p"]
  ∧ dlGit E pj path emptyWorld
    = ((dlGithub E pj "o" "p" (emit (CallDlGit path) emptyWorld)).1,
       (None, (dlGithub E pj "o" "p" (emit (CallDlGit path) emptyWorld)).2))
  ∧ trace (dlGit E pj path emptyWorld).1
    = [CallDlGit path; CallDlGithub "o" "p";
       HttpGet "https://api.github.com/repos/o/p/tarball/abc";
       Chtimes "/w/vendor/example.org/pkg/README" 0 0].
Proof.
  cbv zeta. split; [reflexivity|]. split; [|reflexivity].
  apply (proj1 (dlGit_github_delegates (sampleEnv sampleArchive [])
                  (withTable (sampleProject "example.org/pkg" "" ["."]))
                  "https://github.com/o/p" emptyWorld)
           ["github.com/o/p"; "o"; "p"]).
  reflexivity.
Defined.

Lemma gopkg_https_source_empty_url_witness :
  let E := sampleEnv [] [] in
  let pj := sampleProject "gopkg.in/yaml.v2" "https://gopkg.in/yaml.v2" ["."] in
  is_Some (FindStringSubmatch gopkgRegexp (srcOf pj))
  ∧ HasPrefix (srcOf pj) "https://" = true
  ∧ FindStringSubmatch githubRegexp (srcOf pj) = None
  ∧ CallDlGit "" ∈ added emptyWorld (download E pj emptyWorld).1.
Proof.
  cbv zeta. split; [by eexists|]. split; [reflexivity|]. split; [reflexivity|].
  apply (gopkg_https_source_empty_url (sampleEnv [] [])
           (sampleProject "gopkg.in/yaml.v2" "https://gopkg.in/yaml.v2" ["."]) emptyWorld);
    [by eexists|reflexivity|reflexivity].
Defined.

Lemma unsupported_vcs_before_clone_witness :
  let E := sampleEnv [] svnHead in
  let pj := sampleProject "example.org/pkg" "" ["."] in
  let meta := {| Prefix := "example.org/pkg"; VCS := "svn";
                 RepoRoot := "https://example.org/svn/pkg" |} in
  let w1 := {| fs := ∅; trace := [HttpGet "https://example.org/pkg?go-get=1"] |} in
  FindStringSubmatch githubRegexp (srcOf pj) = None
  ∧ FindStringSubmatch gopkgRegexp (srcOf pj) = None
  ∧ getGoImports E (srcOf pj) emptyWorld = (w1, inr meta)
  ∧ ToLower (VCS meta) ≠ "git"
  ∧ download E pj emptyWorld = (w1, Panic (Errorf "Unsupported VCS type: svn")).
Proof.
  cbv zeta. split; [reflexivity|]. split; [reflexivity|]. split; [reflexivity|].
  assert (ToLower "svn" ≠ "git") as Hne by (vm_compute; discriminate).
  split; [exact Hne|].
  exact (proj1 (proj1 (unsupported_vcs_before_clone (sampleEnv [] svnHead)
                         (sampleProject "example.org/pkg" "" ["."]) emptyWorld
                         {| fs := ∅; trace := [HttpGet "https://example.org/pkg?go-get=1"] |}
                         {| Prefix := "example.org/pkg"; VCS := "svn";
                            RepoRoot := "https://example.org/svn/pkg" |}
                         eq_refl eq_refl eq_refl) Hne)).
Defined.

(** C5 fails as stated: the page gives the kind [GIT], which is not the
    string [git]; [download] does not fail, and clones the repository. *)
Lemma capitals_kind_is_fetched :
  let E := sampleEnv [] capitalsHead in
  let pj := sampleProject "example.org/pkg" "" ["."] in
  let meta := {| Prefix := "example.org/pkg"; VCS := "GIT";
                 RepoRoot := "https://example.org/pkg.git" |} in
  FindStringSubmatch githubRegexp (srcOf pj) = None
  ∧ FindStringSubmatch gopkgRegexp (srcOf pj) = None
  ∧ (getGoImports E (srcOf pj) emptyWorld).2 = inr meta
  ∧ VCS meta ≠ "git"
  ∧ (download E pj emptyWorld).2 = Done
  ∧ trace (download E pj emptyWorld).1
    = [HttpGet "https://example.org/pkg?go-get=1";
       Stdout "Downloading from go-imports: example.org/pkg ( https://example.org/pkg.git abc )";
       CallDlGit "https://example.org/pkg.git";
       Exec ["git"; "clone"; "https://example.org/pkg.git"; "/w/vendor/example.org/pkg"] "";
       Exec ["git"; "reset"; "--hard"; "abc"] "/w/vendor/example.org/pkg"].
Proof.
  cbv zeta. repeat split; try reflexivity. vm_compute. discriminate.
Qed.

(** C6 at a source on gopkg.in that is written with its scheme: the source
    does not match [githubRegexp] and matches [gopkgRegexp], and the path
    [download] hands to [dlGit], and [dlGit] to [git clone], is the empty
    string, on which the git client fails; [download] then writes the
    output of the client, which is empty and not [nil], the name of the
    project and the error to the standard error, and panics. *)
Lemma gopkg_https_source_clones_nothing :
  let E := sampleEnv [] [] in
  let pj := sampleProject "gopkg.in/yaml.v2" "https://gopkg.in/yaml.v2" ["."] in
  srcOf pj = "https://gopkg.in/yaml.v2"
  ∧ FindStringSubmatch githubRegexp (srcOf pj) = None
  ∧ FindStringSubmatch gopkgRegexp (srcOf pj) = Some ["gopkg.in/yaml.v2"; "yaml.v2"]
  ∧ trace (download E pj emptyWorld).1
    = [Stdout "Downloading from gopkg: gopkg.in/yaml.v2 ( https://gopkg.in/yaml.v2 abc )";
       CallDlGit "";
       Exec ["git"; "clone"; ""; "/w/vendor/gopkg.in/yaml.v2"] "";
       Stderr "";
       Stderr "gopkg.in/yaml.v2";
       Stderr "exit status 128"]
  ∧ (download E pj emptyWorld).2 = Panic (WithStack (Opaque "exit status 128")).
Proof. cbv zeta. repeat split; reflexivity. Qed.

(** ** What an entry leaves in the file system *)

Section Entries.

Variable E : Env.




End Entries.


(** C7 at an archive with a symbolic link: the first fetch succeeds and
    leaves the link at [/w/x], outside the target directory; the second
    fetch of the same archive finds it there, fails at the link, and the
    file that follows it in the archive is missing from the tree. *)
Lemma second_extraction_loses_files :
  let E := sampleEnv linkArchive [] in
  let pj := sampleProject "github.com/o/p" "" ["."] in
  let base := Os.resolve (wd E) (Join [vendorDir E; Name pj]) in
  let first := download E pj wdWorld in
  let second := download E pj first.1 in
  first.2 = Done
  ∧ fs first.1 !! ["w"; "x"] = Some (Os.SymLink "/w/vendor/github.com/o/p/l")
  ∧ second.2 = Panic (WithStack (PathError "symlink" "x" EEXIST))
  ∧ Os.tree base (fs first.1) !! (base ++ ["a.txt"]) = Some (Os.RegFile 420 "aaa")
  ∧ Os.tree base (fs second.1) !! (base ++ ["a.txt"]) = None
  ∧ Os.tree base (fs first.1) ≠ Os.tree base (fs second.1).
Proof.
  cbv zeta. split; [reflexivity|]. split; [reflexivity|]. split; [reflexivity|].
  split; [reflexivity|]. split; [reflexivity|].
  intros Heq. apply (f_equal (fun t : Os.FS => t !! ["w"; "vendor"; "github.com"; "o"; "p"; "a.txt"])) in Heq.
  vm_compute in Heq. discriminate.
Qed.

(** ** Fetching twice *)

Section Directories.

Implicit Types (F G : Os.FS) (cur p q : Os.loc) (comps : list string).

(** [mkdirs] keeps what is there. *)
Lemma mkdirs_preserves comps : ∀ F cur F' e q x,
  Os.mkdirs F cur comps = (F', e) → F !! q = Some x → F' !! q = Some x.
Proof.
  induction comps as [|c cs IH]; intros F cur F' e q x Hmk Hq; simpl in Hmk.
  - by injection Hmk as <- <-.
  - destruct (F !! (cur ++ [c])) as [[mode data| |tgt]|] eqn:Hp;
      try (by injection Hmk as <- <-).
    + by apply (IH _ _ _ _ _ _ Hmk).
    + apply (IH _ _ _ _ _ _ Hmk). rewrite lookup_insert_ne; [done|].
      intros <-. by rewrite Hp in Hq.
Qed.

(** [mkdirs] only touches the directories it is asked for. *)
Lemma mkdirs_elsewhere comps : ∀ F cur F' e q,
  Os.mkdirs F cur comps = (F', e) →
  (∀ ys, ys ≠ [] → ys `prefix_of` comps → q ≠ cur ++ ys) →
  F' !! q = F !! q.
Proof.
  induction comps as [|c cs IH]; intros F cur F' e q Hmk Hq; simpl in Hmk.
  - by injection Hmk as <- <-.
  - assert (q ≠ cur ++ [c]) as Hne.
    { apply Hq; [done|]. by apply prefix_cons, prefix_nil. }
    assert (∀ ys, ys ≠ [] → ys `prefix_of` cs → q ≠ (cur ++ [c]) ++ ys) as Hq'.
    { intros ys Hys Hpre. rewrite <- app_assoc. apply Hq; [done|]. by apply prefix_cons. }
    destruct (F !! (cur ++ [c])) as [[mode data| |tgt]|] eqn:Hp;
      try (by injection Hmk as <- <-).
    + by apply (IH _ _ _ _ _ Hmk).
    + rewrite (IH _ _ _ _ _ Hmk Hq'). by apply lookup_insert_ne.
Qed.

(** After [mkdirs] has succeeded every directory it was asked for exists. *)
Lemma mkdirs_ok_prefix comps : ∀ F cur F' ys,
  Os.mkdirs F cur comps = (F', None) → ys ≠ [] → ys `prefix_of` comps →
  F' !! (cur ++ ys) = Some Os.Directory.
Proof.
  induction comps as [|c cs IH]; intros F cur F' ys Hmk Hys Hpre.
  - apply prefix_nil_inv in Hpre. done.
  - destruct ys as [|y ys']; [done|].
    apply prefix_cons_inv_1 in Hpre as Hy. subst y.
    apply prefix_cons_inv_2 in Hpre.
    replace (cur ++ c :: ys') with ((cur ++ [c]) ++ ys') by by rewrite <- app_assoc.
    simpl in Hmk.
    assert (∀ F0, F0 !! (cur ++ [c]) = Some Os.Directory →
                  Os.mkdirs F0 (cur ++ [c]) cs = (F', None) →
                  F' !! ((cur ++ [c]) ++ ys') = Some Os.Directory) as Hgo.
    { intros F0 Hdir Hmk0. destruct ys' as [|y' ys''].
      - rewrite app_nil_r. by apply (mkdirs_preserves _ _ _ _ _ _ _ Hmk0).
      - by apply (IH _ _ _ _ Hmk0). }
    destruct (F !! (cur ++ [c])) as [[mode data| |tgt]|] eqn:Hp; try discriminate.
    + by apply (Hgo F).
    + apply (Hgo (<[cur ++ [c] := Os.Directory]> F)); [apply lookup_insert_eq|done].
Qed.

(** [mkdirs] succeeds when nothing but directories is in its way. *)
Lemma mkdirs_succeeds comps : ∀ F cur,
  (∀ ys, ys ≠ [] → ys `prefix_of` comps →
         F !! (cur ++ ys) = None ∨ F !! (cur ++ ys) = Some Os.Directory) →
  (Os.mkdirs F cur comps).2 = None.
Proof.
  induction comps as [|c cs IH]; intros F cur Hfree; [done|]. simpl.
  assert (∀ ys, ys ≠ [] → ys `prefix_of` cs →
                F !! ((cur ++ [c]) ++ ys) = None
                ∨ F !! ((cur ++ [c]) ++ ys) = Some Os.Directory) as Hfree'.
  { intros ys Hys Hpre. rewrite <- app_assoc. apply Hfree; [done|]. by apply prefix_cons. }
  destruct (Hfree [c]) as [Hp|Hp]; [done|by apply prefix_cons, prefix_nil| |]; rewrite Hp.
  - apply IH. intros ys Hys Hpre. rewrite lookup_insert_ne; [by apply Hfree'|].
    intros Heq. apply (f_equal length) in Heq. rewrite !length_app in Heq.
    destruct ys; [done|]. simpl in Heq. lia.
  - by apply IH.
Qed.

(** Directories that exist are passed without a change. *)
Lemma mkdirs_skip xs : ∀ F cur rest,
  (∀ ys, ys ≠ [] → ys `prefix_of` xs → F !! (cur ++ ys) = Some Os.Directory) →
  Os.mkdirs F cur (xs ++ rest) = Os.mkdirs F (cur ++ xs) rest.
Proof.
  induction xs as [|x xs IH]; intros F cur rest Hdirs; simpl.
  - by rewrite app_nil_r.
  - rewrite (Hdirs [x]); [|done|by apply prefix_cons, prefix_nil].
    replace (cur ++ x :: xs) with ((cur ++ [x]) ++ xs) by by rewrite <- app_assoc.
    apply IH. intros ys Hys Hpre. rewrite <- app_assoc. apply Hdirs; [done|].
    by apply prefix_cons.
Qed.

Lemma RemoveAll_lookup wd0 F path p :
  Os.RemoveAll wd0 F path !! p
  = if Os.under (Os.resolve wd0 path) p then None else F !! p.
Proof.
  unfold Os.RemoveAll. destruct (Os.under (Os.resolve wd0 path) p) eqn:Hu.
  - apply map_lookup_filter_None. right. intros x _. simpl. by rewrite Hu.
  - destruct (F !! p) as [x|] eqn:Hp.
    + by apply map_lookup_filter_Some.
    + apply map_lookup_filter_None. by left.
Qed.

End Directories.

Section Agreement.

Variable E : Env.
Variable B : Os.loc.

Implicit Types (F G : Os.FS) (p q : Os.loc) (w v : World).

Lemma agree_refl_dirs F :
  (∀ q, q ≠ [] → q `prefix_of` B → F !! q = Some Os.Directory) → agree B F F.
Proof. intros H. split; [done|]. intros q Hq Hpre. split; by apply H. Qed.

Lemma agree_insert F G p x :
  agree B F G → B `prefix_of` p → p ≠ B ∨ B = [] →
  agree B (<[p := x]> F) (<[p := x]> G).
Proof.
  intros [Hin Hup] Hpre Hne. split.
  - intros p' Hp'. destruct (decide (p = p')) as [->|Hpp].
    + by rewrite !lookup_insert_eq.
    + rewrite !lookup_insert_ne by done. by apply Hin.
  - intros q Hq Hqb.
    assert (p ≠ q) as Hpq.
    { intros ->. assert (q = B) as -> by by apply (anti_symm prefix).
      by destruct Hne. }
    rewrite !lookup_insert_ne by done. by apply Hup.
Qed.

Lemma below_not_base cur c : B `prefix_of` cur → cur ++ [c] ≠ B.
Proof.
  intros Hpre Heq. apply prefix_length in Hpre. apply (f_equal length) in Heq.
  rewrite length_app in Heq. simpl in Heq. lia.
Qed.

Lemma mkdirs_agree rest : ∀ cur F G,
  B `prefix_of` cur → agree B F G →
  (Os.mkdirs F cur rest).2 = (Os.mkdirs G cur rest).2
  ∧ agree B (Os.mkdirs F cur rest).1 (Os.mkdirs G cur rest).1.
Proof.
  induction rest as [|c cs IH]; intros cur F G Hpre Hag; simpl; [done|].
  assert (B `prefix_of` cur ++ [c]) as Hp by by apply prefix_app_r.
  rewrite <- (proj1 Hag _ Hp).
  destruct (F !! (cur ++ [c])) as [[mode data| |tgt]|]; simpl; try done.
  - by apply IH.
  - apply IH; [done|]. apply agree_insert; [done|done|]. left. by apply below_not_base.
Qed.

Lemma MkdirAll_agree F G path :
  B `prefix_of` Os.resolve (wd E) path → agree B F G →
  (Os.MkdirAll (wd E) F path).2 = (Os.MkdirAll (wd E) G path).2
  ∧ agree B (Os.MkdirAll (wd E) F path).1 (Os.MkdirAll (wd E) G path).1.
Proof.
  intros [rest Hres] Hag. unfold Os.MkdirAll. rewrite Hres.
  rewrite !mkdirs_skip; try (intros ys Hys Hpre; simpl; by apply (proj2 Hag)).
  by apply mkdirs_agree.
Qed.

Lemma prefix_parent p : B `prefix_of` p → p ≠ B → B `prefix_of` Os.parent p.
Proof.
  intros [k ->] Hne. unfold Os.parent.
  destruct k as [|x k]; [by rewrite app_nil_r in Hne|].
  rewrite removelast_app by done. by apply prefix_app_r.
Qed.

Lemma parentErr_agree F G p :
  agree B F G → B `prefix_of` p → p ≠ B → Os.parentErr F p = Os.parentErr G p.
Proof.
  intros Hag Hpre Hne. unfold Os.parentErr, Os.isDir.
  by rewrite (proj1 Hag _ (prefix_parent _ Hpre Hne)).
Qed.

(** At [B] itself there is a directory, or [B] is the root. *)
Lemma agree_base F G : agree B F G → B = [] ∨ F !! B = Some Os.Directory.
Proof.
  intros Hag. destruct B as [|b B'] eqn:HB; [by left|]. right.
  by apply (proj2 Hag).
Qed.

Lemma OpenFile_agree F G path mode :
  B `prefix_of` Os.resolve (wd E) path → agree B F G →
  (Os.OpenFile (wd E) (umask E) F path mode).2
  = (Os.OpenFile (wd E) (umask E) G path mode).2
  ∧ agree B (Os.OpenFile (wd E) (umask E) F path mode).1
            (Os.OpenFile (wd E) (umask E) G path mode).1.
Proof.
  intros Hpre Hag. unfold Os.OpenFile. rewrite <- (proj1 Hag _ Hpre).
  destruct (F !! Os.resolve (wd E) path) as [[m d| |tgt]|] eqn:Hp; simpl; try done.
  case_bool_decide as Hroot; simpl; [done|].
  assert (Os.resolve (wd E) path ≠ B) as Hne.
  { intros Heq. destruct (agree_base F G Hag) as [HB|HB]; [congruence|].
    rewrite <- Heq in HB. congruence. }
  rewrite <- (parentErr_agree F G _ Hag Hpre Hne).
  destruct (Os.parentErr F _); simpl; [done|]. split; [done|].
  apply agree_insert; [done|done|by left].
Qed.

Lemma Write_agree F G path bytes :
  B `prefix_of` Os.resolve (wd E) path → agree B F G →
  agree B (Os.Write (wd E) F path bytes) (Os.Write (wd E) G path bytes).
Proof.
  intros Hpre Hag. unfold Os.Write. rewrite <- (proj1 Hag _ Hpre).
  destruct (F !! Os.resolve (wd E) path) as [[m d| |tgt]|] eqn:Hp; try done.
  apply agree_insert; [done|done|].
  destruct (agree_base F G Hag) as [HB|HB]; [by right|]. left. congruence.
Qed.

Lemma writeEntry_agree target it w v :
  Typeflag (hdr it) ≠ TypeSymlink →
  B `prefix_of` Os.resolve (wd E) target →
  agree B (fs w) (fs v) →
  (writeEntry E target it w).2 = (writeEntry E target it v).2
  ∧ agree B (fs (writeEntry E target it w).1) (fs (writeEntry E target it v).1).
Proof.
  intros Hlink Hpre Hag. unfold writeEntry.
  destruct (Ascii.eqb (Typeflag (hdr it)) TypeReg || Ascii.eqb (Typeflag (hdr it)) TypeRegA).
  - destruct (OpenFile_agree (fs w) (fs v) target (Mode (hdr it)) Hpre Hag) as [He Ha].
    destruct (Os.OpenFile (wd E) (umask E) (fs w) target (Mode (hdr it))) as [f1 e1].
    destruct (Os.OpenFile (wd E) (umask E) (fs v) target (Mode (hdr it))) as [f2 e2].
    simpl in He, Ha. subst e2. destruct e1 as [err|]; simpl; [done|].
    pose proof (Write_agree f1 f2 target (content it) Hpre Ha).
    by destruct (contentErr it).
  - destruct (Ascii.eqb (Typeflag (hdr it)) TypeDir).
    + destruct (MkdirAll_agree (fs w) (fs v) target Hpre Hag) as [He Ha].
      destruct (Os.MkdirAll (wd E) (fs w) target) as [f1 e1].
      destruct (Os.MkdirAll (wd E) (fs v) target) as [f2 e2].
      simpl in He, Ha. subst e2. by destruct e1.
    + destruct (Ascii.eqb_spec (Typeflag (hdr it)) TypeSymlink); done.
Qed.

Lemma extract_agree baseDir table items fin : ∀ w v,
  B = Os.resolve (wd E) baseDir →
  staysInside E baseDir table items →
  agree B (fs w) (fs v) →
  (extract E baseDir table items fin w).2 = (extract E baseDir table items fin v).2
  ∧ agree B (fs (extract E baseDir table items fin w).1)
            (fs (extract E baseDir table items fin v).1).
Proof.
  induction items as [|it rest IH]; intros w v HB Hin Hag; simpl.
  - by destruct fin.
  - apply Forall_cons in Hin as [Hit Hrest].
    assert (∀ w' v', agree B (fs w') (fs v') →
      (nextEntry it w' (extract E baseDir table rest fin)).2
      = (nextEntry it v' (extract E baseDir table rest fin)).2
      ∧ agree B (fs (nextEntry it w' (extract E baseDir table rest fin)).1)
                (fs (nextEntry it v' (extract E baseDir table rest fin)).1)) as Hnext.
    { intros w' v' Hag'. unfold nextEntry. destruct (contentErr it); [done|]. by apply IH. }
    destruct (entryTarget baseDir table (hName (hdr it))) as [target|] eqn:Ht;
      [|by apply Hnext].
    destruct (Hit target eq_refl) as [Hlink Hpre]. rewrite <- HB in Hpre.
    set (w1 := if verbose E then emit (Println ["Writing:"; target]) w else w).
    set (v1 := if verbose E then emit (Println ["Writing:"; target]) v else v).
    assert (agree B (fs w1) (fs v1)) as Hag1.
    { unfold w1, v1. by destruct (verbose E). }
    destruct (writeEntry_agree target it w1 v1 Hlink Hpre Hag1) as [He Ha].
    destruct (writeEntry E target it w1) as [w2 e1].
    destruct (writeEntry E target it v1) as [v2 e2].
    simpl in He, Ha. subst e2. destruct e1 as [err|]; [done|].
    by apply Hnext.
Qed.

(** File systems that agree have the same tree at [B]. *)
Lemma tree_agree F G : agree B F G → Os.tree B F = Os.tree B G.
Proof.
  intros [Hin _]. unfold Os.tree. apply map_filter_strong_ext_1.
  intros p x. simpl. unfold Os.under. rewrite bool_decide_eq_true.
  split; intros [Hpre Hx]; (split; [done|]); [by rewrite <- Hin|by rewrite Hin].
Qed.

End Agreement.

Section Twice.

Variable E : Env.

(** The target directory after it was removed and made again: it is empty,
    and the directories above it exist. *)
Lemma reset_inside F path F' :
  Os.MkdirAll (wd E) (Os.RemoveAll (wd E) F path) path = (F', None) →
  (∀ q, q ≠ [] → q `prefix_of` Os.resolve (wd E) path → F' !! q = Some Os.Directory)
  ∧ (∀ p, Os.resolve (wd E) path `prefix_of` p →
          p ≠ Os.resolve (wd E) path ∨ Os.resolve (wd E) path = [] → F' !! p = None).
Proof.
  unfold Os.MkdirAll. intros Hmk. split.
  - intros q Hq Hpre. by apply (mkdirs_ok_prefix _ _ [] _ q Hmk).
  - intros p Hpre Hne. rewrite (mkdirs_elsewhere _ _ _ _ _ p Hmk).
    + rewrite RemoveAll_lookup. unfold Os.under. by rewrite bool_decide_eq_true_2.
    + intros ys Hys Hys' ->. simpl in *.
      assert (ys = Os.resolve (wd E) path) as Heq by by apply (anti_symm prefix).
      destruct Hne as [Hne|Hne]; congruence.
Qed.

(** It can be made again when the directories above it exist. *)
Lemma reset_succeeds F path :
  (∀ q, q ≠ [] → q `prefix_of` Os.resolve (wd E) path → F !! q = Some Os.Directory) →
  (Os.MkdirAll (wd E) (Os.RemoveAll (wd E) F path) path).2 = None.
Proof.
  intros Hdirs. unfold Os.MkdirAll. apply mkdirs_succeeds. intros ys Hys Hpre. simpl.
  rewrite RemoveAll_lookup. destruct (Os.under _ ys); [by left|]. right. by apply Hdirs.
Qed.

Lemma reset_agree F G path F' G' :
  Os.MkdirAll (wd E) (Os.RemoveAll (wd E) F path) path = (F', None) →
  Os.MkdirAll (wd E) (Os.RemoveAll (wd E) G path) path = (G', None) →
  agree (Os.resolve (wd E) path) F' G'.
Proof.
  intros [HF1 HF2]%reset_inside [HG1 HG2]%reset_inside. split.
  - intros p Hpre. destruct (decide (p = Os.resolve (wd E) path)) as [->|Hne].
    + destruct (Os.resolve (wd E) path) as [|b B'] eqn:HB.
      * rewrite HF2; [|done|by right]. rewrite HG2; [done|done|by right].
      * by rewrite HF1, HG1.
    + rewrite HF2; [|done|by left]. rewrite HG2; [done|done|by left].
  - intros q Hq Hpre. split; [by apply HF1|by apply HG1].
Qed.

Lemma dlGithub_stops pj user repo err w :
  fetched E pj user repo = inl err →
  (dlGithub E pj user repo w).2 = Some err ∧ fs (dlGithub E pj user repo w).1 = fs w.
Proof.
  unfold fetched, dlGithub. intros H.
  destruct (httpGet E _) as [e|resp]; [by injection H as <-|].
  destruct (negb _); [by injection H as <-|].
  destruct (BodyErr resp); [by injection H as <-|].
  destruct (tarReader E _) as [e|[items fin]]; [by injection H as <-|discriminate].
Qed.

Lemma dlGithub_extract pj user repo items fin F0 w :
  fetched E pj user repo = inr (items, fin) →
  Os.MkdirAll (wd E) (Os.RemoveAll (wd E) (fs w) (Join [vendorDir E; Name pj]))
    (Join [vendorDir E; Name pj]) = (F0, None) →
  ∃ W0, fs W0 = F0
        ∧ dlGithub E pj user repo w
          = extract E (Join [vendorDir E; Name pj]) (subdirTable pj) items fin W0.
Proof.
  unfold fetched, dlGithub. intros H Hmk.
  destruct (httpGet E _) as [e|resp]; [discriminate|].
  destruct (negb _); [discriminate|].
  destruct (BodyErr resp); [discriminate|].
  destruct (tarReader E _) as [e|[items' fin']]; [discriminate|].
  injection H as -> ->. simpl fs. rewrite Hmk. eexists. split; [|reflexivity]. reflexivity.
Qed.

(** For an archive that has no symbolic link among the entries written and
    whose entries stay in the target directory, and a target directory that
    can be made, a second fetch of the same archive ends as the first did
    and leaves the same tree in the target directory. *)
Theorem fetch_twice_same_tree pj user repo w :
  let baseDir := Join [vendorDir E; Name pj] in
  (Os.MkdirAll (wd E) (Os.RemoveAll (wd E) (fs w) baseDir) baseDir).2 = None →
  (∀ items fin, fetched E pj user repo = inr (items, fin) →
                staysInside E baseDir (subdirTable pj) items) →
  (dlGithub E pj user repo (dlGithub E pj user repo w).1).2
  = (dlGithub E pj user repo w).2
  ∧ Os.tree (Os.resolve (wd E) baseDir)
            (fs (dlGithub E pj user repo (dlGithub E pj user repo w).1).1)
    = Os.tree (Os.resolve (wd E) baseDir) (fs (dlGithub E pj user repo w).1).
Proof.
  cbv zeta. intros Hmk Hin.
  destruct (fetched E pj user repo) as [err|[items fin]] eqn:Hf.
  { destruct (dlGithub_stops pj user repo err w Hf) as [He1 Hfs1].
    destruct (dlGithub_stops pj user repo err (dlGithub E pj user repo w).1 Hf)
      as [He2 Hfs2].
    by rewrite He1, He2, Hfs2. }
  specialize (Hin items fin eq_refl).
  destruct (Os.MkdirAll (wd E) (Os.RemoveAll (wd E) (fs w) (Join [vendorDir E; Name pj]))
              (Join [vendorDir E; Name pj])) as [F0 e0] eqn:HF0.
  simpl in Hmk. subst e0.
  destruct (dlGithub_extract pj user repo items fin F0 w Hf HF0) as (W0 & HW0 & ->).
  pose proof (reset_inside _ _ _ HF0) as [Hdirs0 _].
  assert (agree (Os.resolve (wd E) (Join [vendorDir E; Name pj])) (fs W0) (fs W0)) as Hself.
  { apply agree_refl_dirs. by rewrite HW0. }
  destruct (extract_agree E _ _ _ items fin W0 W0 eq_refl Hin Hself) as [_ [_ Hdirs1]].
  remember (extract E (Join [vendorDir E; Name pj]) (subdirTable pj) items fin W0) as r1
    eqn:Hr1.
  assert ((Os.MkdirAll (wd E) (Os.RemoveAll (wd E) (fs r1.1) (Join [vendorDir E; Name pj]))
             (Join [vendorDir E; Name pj])).2 = None) as Hok.
  { apply reset_succeeds. intros q Hq Hpre. by apply Hdirs1. }
  destruct (Os.MkdirAll (wd E) (Os.RemoveAll (wd E) (fs r1.1) (Join [vendorDir E; Name pj]))
              (Join [vendorDir E; Name pj])) as [G0 e1] eqn:HG0.
  simpl in Hok. subst e1.
  destruct (dlGithub_extract pj user repo items fin G0 r1.1 Hf HG0) as (V0 & HV0 & ->).
  assert (agree (Os.resolve (wd E) (Join [vendorDir E; Name pj])) (fs W0) (fs V0)) as Hag.
  { rewrite HW0, HV0. by apply (reset_agree (fs w) (fs r1.1) (Join [vendorDir E; Name pj])). }
  destruct (extract_agree E _ _ _ items fin W0 V0 eq_refl Hin Hag) as [He Ha].
  rewrite <- Hr1 in He, Ha.
  split; [by rewrite He|]. symmetry. by apply tree_agree.
Qed.

End Twice.

Lemma fetch_twice_same_tree_witness :
  let E := sampleEnv sampleArchive [] in
  let pj := withTable (sampleProject "github.com/o/p" "" ["."; "foo"]) in
  let baseDir := Join [vendorDir E; Name pj] in
  let first := dlGithub E pj "o" "p" wdWorld in
  let second := dlGithub E pj "o" "p" first.1 in
  (Os.MkdirAll (wd E) (Os.RemoveAll (wd E) (fs wdWorld) baseDir) baseDir).2 = None
  ∧ staysInside E baseDir (subdirTable pj) sampleArchive
  ∧ first.2 = None
  ∧ second.2 = first.2
  ∧ Os.tree (Os.resolve (wd E) baseDir) (fs second.1)
    = Os.tree (Os.resolve (wd E) baseDir) (fs first.1).
Proof.
  cbv zeta.
  assert (staysInside (sampleEnv sampleArchive [])
            (Join [vendorDir (sampleEnv sampleArchive []);
                   Name (withTable (sampleProject "github.com/o/p" "" ["."; "foo"]))])
            (subdirTable (withTable (sampleProject "github.com/o/p" "" ["."; "foo"])))
            sampleArchive) as Hin.
  { unfold staysInside, sampleArchive.
    repeat first [apply List.Forall_cons | apply List.Forall_nil];
      intros target Ht; vm_compute in Ht; try discriminate;
      injection Ht as <-; (split; [discriminate|]);
      apply (bool_decide_unpack _); vm_compute; exact I. }
  split; [reflexivity|]. split; [exact Hin|]. split; [reflexivity|].
  apply (fetch_twice_same_tree (sampleEnv sampleArchive [])
           (withTable (sampleProject "github.com/o/p" "" ["."; "foo"])) "o" "p" wdWorld).
  - reflexivity.
  - intros items fin Hf. vm_compute in Hf. injection Hf as <- <-. exact Hin.
Defined.

(** ** The regular expressions *)

Section Regexp.

Implicit Types (p : list node) (s mt : string) (gs : list string).

Lemma append_cons (a : ascii) s t : String a s +:+ t = String a (s +:+ t).
Proof. reflexivity. Qed.

Lemma append_nil_r s : s +:+ "" = s.
Proof. induction s as [|a s IH]; [done|]. by rewrite append_cons, IH. Qed.

Lemma append_assoc s1 s2 s3 : (s1 +:+ s2) +:+ s3 = s1 +:+ s2 +:+ s3.
Proof. induction s1 as [|a s1 IH]; [done|]. by rewrite !append_cons, IH. Qed.

Lemma takeS_dropS n : ∀ s, takeS n s +:+ dropS n s = s.
Proof.
  unfold takeS. induction n as [|n IH]; intros [|a s]; try done.
  cbn [String.substring dropS]. by rewrite append_cons, IH.
Qed.

Lemma matchHere_many k capture p s :
  matchHere (Many k capture :: p) s
  = (fun '(run, r) => (run +:+ r.1, if capture then run :: r.2 else r.2))
      <$> manyRun k (matchHere p) s.
Proof. reflexivity. Qed.

(** A match is a prefix of the string it was found in. *)
Lemma matchHere_lits l : ∀ p s mt gs,
  matchHere (lits l ++ p) s = Some (mt, gs) →
  ∃ s' mt', s = l +:+ s' ∧ mt = l +:+ mt' ∧ matchHere p s' = Some (mt', gs).
Proof.
  induction l as [|c l IH]; intros p s mt gs Hm.
  - by exists s, mt.
  - cbn in Hm. destruct s as [|a s0]; [discriminate|].
    destruct (Ascii.eqb_spec a c) as [->|]; [|discriminate].
    destruct (matchHere (lits l ++ p) s0) as [[mt0 gs0]|] eqn:H0; [|discriminate].
    injection Hm as <- <-. destruct (IH _ _ _ _ H0) as (s' & mt' & -> & -> & Hp).
    by exists s', mt'.
Qed.

Lemma matchHere_dot p s mt gs :
  matchHere (Dot :: p) s = Some (mt, gs) →
  ∃ d s' mt', s = d +:+ s' ∧ d = takeS (decodeRune s).2 s
              ∧ mt = d +:+ mt' ∧ matchHere p s' = Some (mt', gs).
Proof.
  cbn. destruct s as [|a s0]; [discriminate|].
  destruct (Ascii.eqb a newline); [discriminate|].
  destruct (matchHere p _) as [[mt0 gs0]|] eqn:H0; [|discriminate].
  intros [= <- <-]. eexists _, _, mt0. split; [|split; [reflexivity|split; [reflexivity|exact H0]]].
  by rewrite takeS_dropS.
Qed.

Lemma manyRun_Some k rest : ∀ s run r,
  manyRun k rest s = Some (run, r) →
  run ≠ ""
  ∧ Forall (fun c => inClass k c = true) (String.list_ascii_of_string run)
  ∧ ∃ s', s = run +:+ s' ∧ rest s' = Some r.
Proof.
  induction s as [|a s IH]; intros run r Hm; [discriminate|].
  cbn in Hm. destruct (inClass k a) eqn:Ha; [|discriminate].
  fold (manyRun k rest) in Hm.
  destruct (manyRun k rest s) as [[run0 r0]|] eqn:H0.
  - injection Hm as <- <-. destruct (IH _ _ eq_refl) as (Hne & Hall & s' & -> & Hr).
    split; [done|]. split; [by constructor|]. by exists s'.
  - destruct (rest s) as [r0|] eqn:Hr; [|discriminate]. injection Hm as <- <-.
    split; [done|]. split; [by repeat constructor|]. by exists s.
Qed.

(** The run is the longest: after it the repetition cannot go on. *)
Lemma manyRun_end k rest : ∀ s run r,
  manyRun k rest s = Some (run, r) →
  ∃ s', s = run +:+ s' ∧ rest s' = Some r ∧ manyRun k rest s' = None.
Proof.
  induction s as [|a s IH]; intros run r Hm; [discriminate|].
  cbn in Hm. destruct (inClass k a) eqn:Ha; [|discriminate].
  fold (manyRun k rest) in Hm.
  destruct (manyRun k rest s) as [[run0 r0]|] eqn:H0.
  - injection Hm as <- <-. destruct (IH _ _ eq_refl) as (s' & -> & Hr & Hend).
    by exists s'.
  - destruct (rest s) as [r0|] eqn:Hr; [|discriminate]. injection Hm as <- <-.
    by exists s.
Qed.

Lemma manyRun_None k rest s :
  (∀ s', rest s' ≠ None) → manyRun k rest s = None →
  s = "" ∨ ∃ c s', s = String c s' ∧ inClass k c = false.
Proof.
  intros Htotal Hm. destruct s as [|a s]; [by left|]. right. exists a, s.
  split; [done|]. cbn in Hm. destruct (inClass k a); [|done].
  fold (manyRun k rest) in Hm.
  destruct (manyRun k rest s) as [[run0 r0]|]; [discriminate|].
  destruct (rest s) eqn:Hr; [discriminate|]. by apply Htotal in Hr.
Qed.

Lemma inClass_groupChar c :
  inClass (NoneOf [slash; " "%char; newline]) c = false → ¬ groupChar c.
Proof.
  unfold inClass, groupChar. cbn. rewrite negb_false_iff, !orb_true_iff.
  intros [H|[H|[H|H]]] (H1 & H2 & H3); try done;
    apply Ascii.eqb_eq in H; by subst c.
Qed.

Lemma FindStringSubmatch_Some p : ∀ s m,
  FindStringSubmatch p s = Some m →
  ∃ pre s' mt gs, s = pre +:+ s' ∧ matchHere p s' = Some (mt, gs) ∧ m = mt :: gs.
Proof.
  induction s as [|a s IH]; intros m; unfold FindStringSubmatch;
    fold (FindStringSubmatch p).
  - destruct (matchHere p "") as [[mt gs]|] eqn:H0; [|discriminate].
    intros [= <-]. by exists "", "", mt, gs.
  - destruct (matchHere p (String a s)) as [[mt gs]|] eqn:H0.
    + intros [= <-]. by exists "", (String a s), mt, gs.
    + intros (pre & s' & mt & gs & -> & Hm & ->)%IH.
      by exists (String a pre), s', mt, gs.
Qed.

Lemma groupChar_inClass c :
  inClass (NoneOf [slash; " "%char; newline]) c = true → groupChar c.
Proof.
  unfold inClass, groupChar. cbn. rewrite negb_true_iff, !orb_false_iff.
  intros (H1 & H2 & H3 & _).
  repeat split; intros ->; by rewrite Ascii.eqb_refl in *.
Qed.

End Regexp.

Section GithubPattern.

Lemma decodeRune_width s : s ≠ "" → (1 ≤ (decodeRune s).2 ≤ 4)%nat.
Proof.
  destruct s as [|a s]; [done|]. intros _. unfold decodeRune.
  change (byteAt (String a s) 0) with (Some (N_of_ascii a)). cbv zeta.
  repeat (case_match; simpl; try lia; try discriminate).
Qed.

Lemma takeS_length n : ∀ s, (String.length (takeS n s) ≤ n)%nat.
Proof.
  unfold takeS. induction n as [|n IH]; intros [|a s]; simpl; try lia.
  specialize (IH s). lia.
Qed.

Lemma takeS_nonempty n s : (1 ≤ n)%nat → s ≠ "" → takeS n s ≠ "".
Proof. destruct n; [lia|]. by destruct s. Qed.

Lemma segment_run run :
  run ≠ "" →
  Forall (fun c => inClass (NoneOf [slash; " "%char; newline]) c = true)
         (String.list_ascii_of_string run) →
  segment run.
Proof.
  intros Hne Hall. split; [done|]. eapply Forall_impl; [exact Hall|].
  intros c. apply groupChar_inClass.
Qed.

Lemma takeS_full n : ∀ s, dropS n s ≠ "" → String.length (takeS n s) = n.
Proof.
  unfold takeS. induction n as [|n IH]; intros [|a s] Hd; try done.
  cbn [String.substring]. simpl. f_equal. by apply IH.
Qed.

Lemma takeS_all s : takeS (String.length s) s = s.
Proof. unfold takeS. induction s as [|a s IH]; [done|]. simpl. by rewrite IH. Qed.

Lemma dropS_all s : dropS (String.length s) s = "".
Proof. induction s as [|a s IH]; [done|]. done. Qed.

Lemma inRange_Some lo hi x :
  inRange lo hi (Some x) = true → (lo ≤ x ≤ hi)%N.
Proof. unfold inRange. rewrite andb_true_iff, !N.leb_le. lia. Qed.

Lemma inRange_is_Some lo hi b : inRange lo hi b = true → ∃ x, b = Some x ∧ (lo ≤ x ≤ hi)%N.
Proof. destruct b as [x|]; [|done]. intros H. exists x. split; [done|]. by apply inRange_Some. Qed.

Lemma land_low x n : N.land x (N.ones n) = (x mod 2 ^ n)%N.
Proof. apply N.land_ones. Qed.

(** The rune read is the line feed only when the first byte is. *)
Lemma decodeRune_lf a s : (decodeRune (String a s)).1 = 10%N → a = newline.
Proof.
  unfold decodeRune. change (byteAt (String a s) 0) with (Some (N_of_ascii a)). cbv beta iota zeta.
  set (b0 := N_of_ascii a). set (b1 := byteAt (String a s) 1).
  set (b2 := byteAt (String a s) 2). set (b3 := byteAt (String a s) 3).
  assert (b0 = N_of_ascii a) as Hb0def by done. clearbody b0 b1 b2 b3.
  destruct (b0 <? 128)%N eqn:H0.
  { simpl. intros Hb. rewrite Hb0def in Hb. apply (f_equal ascii_of_N) in Hb.
    by rewrite ascii_N_embedding in Hb. }
  destruct (inRange 194 223 (Some b0)) eqn:H2.
  { apply inRange_Some in H2. destruct (inRange 128 191 b1); simpl; [|done].
    change 31%N with (N.ones 5). rewrite land_low. intros Hr.
    pose proof (N.div_mod b0 (2 ^ 5) ltac:(done)) as Hdm.
    change (2 ^ 5)%N with 32%N in *. exfalso.
    set (q := (b0 / 32)%N) in *. set (m := (b0 mod 32)%N) in *. clearbody q m. lia. }
  destruct (inRange 224 239 (Some b0)) eqn:H3.
  { apply inRange_Some in H3.
    destruct (inRange _ _ b1 && _) eqn:Hc; simpl; [|done].
    apply andb_true_iff in Hc as [Hc _].
    apply inRange_is_Some in Hc as (x & -> & Hx). unfold cont at 1. simpl from_option.
    change 15%N with (N.ones 4). change 63%N with (N.ones 6). rewrite !land_low.
    intros Hr.
    pose proof (N.div_mod b0 (2 ^ 4) ltac:(done)) as Hdm.
    pose proof (N.div_mod x (2 ^ 6) ltac:(done)) as Hdx.
    change (2 ^ 4)%N with 16%N in *. change (2 ^ 6)%N with 64%N in *. exfalso.
    set (q := (b0 / 16)%N) in *. set (m := (b0 mod 16)%N) in *.
    set (q' := (x / 64)%N) in *. set (m' := (x mod 64)%N) in *. clearbody q m q' m'.
    assert (b0 = 224)%N as Hb0 by lia. rewrite Hb0 in Hx. simpl in Hx.
    destruct (b0 =? 237)%N; lia. }
  destruct (inRange 240 244 (Some b0)) eqn:H4; [|done].
  apply inRange_Some in H4.
  destruct (inRange _ _ b1 && _ && _) eqn:Hc; simpl; [|done].
  apply andb_true_iff in Hc as [Hc _]. apply andb_true_iff in Hc as [Hc _].
  apply inRange_is_Some in Hc as (x & -> & Hx). unfold cont at 1. simpl from_option.
  change 7%N with (N.ones 3). change 63%N with (N.ones 6). rewrite !land_low.
  intros Hr.
  pose proof (N.div_mod b0 (2 ^ 3) ltac:(done)) as Hdm.
  pose proof (N.div_mod x (2 ^ 6) ltac:(done)) as Hdx.
  change (2 ^ 3)%N with 8%N in *. change (2 ^ 6)%N with 64%N in *. exfalso.
  set (q := (b0 / 8)%N) in *. set (m := (b0 mod 8)%N) in *.
  set (q' := (x / 64)%N) in *. set (m' := (x mod 64)%N) in *. clearbody q m q' m'.
  assert (b0 = 240)%N as Hb0 by lia. rewrite Hb0 in Hx. simpl in Hx.
  destruct (b0 =? 244)%N; lia.
Qed.

(** The tests of the goal, one after the other, each also settled in [H]. *)
Ltac split_ifs H :=
  repeat match goal with
         | |- context [if ?c then _ else _] =>
             let E := fresh "E" in destruct c eqn:E; try rewrite E in H
         end.

(** The bytes of the first rune of a string, taken alone, are that rune. *)
Lemma decodeRune_alone d rest r :
  d ≠ "" → decodeRune (d +:+ rest) = (r, String.length d) →
  decodeRune d = (r, String.length d).
Proof.
  intros Hne H.
  assert (String.length d ≤ 4)%nat as Hlen.
  { pose proof (decodeRune_width (d +:+ rest)) as Hw. rewrite H in Hw. simpl in Hw.
    apply Hw. by destruct d. }
  destruct d as [|a0 [|a1 [|a2 [|a3 [|a4 d5]]]]]; [done| | | | |simpl in Hlen; lia];
    rewrite ?append_cons in H; unfold decodeRune, byteAt in *;
    cbn [String.get fmap option_fmap option_map String.length] in *;
    cbv beta iota zeta in *;
    split_ifs H; try done;
    repeat (match type of H with
            | context [if ?c then _ else _] => destruct c
            end; try done).
Qed.

Lemma runes_one d r : d ≠ "" → decodeRune d = (r, String.length d) → runes d = [(r, d)].
Proof.
  intros Hne H. unfold runes. destruct d as [|a d']; [done|].
  change (runesFuel (String.length (String a d')) (String a d'))
    with (let '(r, w) := decodeRune (String a d') in
          (r, takeS w (String a d')) :: runesFuel (String.length d') (dropS w (String a d'))).
  rewrite H, takeS_all, dropS_all. by destruct (String.length d').
Qed.

Lemma matchHere_dot_drop p s mt gs :
  matchHere (Dot :: p) s = Some (mt, gs) →
  ∃ a s0 mt', s = String a s0 ∧ a ≠ newline
              ∧ mt = takeS (decodeRune s).2 s +:+ mt'
              ∧ matchHere p (dropS (decodeRune s).2 s) = Some (mt', gs).
Proof.
  cbn. destruct s as [|a s0]; [discriminate|].
  destruct (Ascii.eqb_spec a newline) as [|Hnl]; [discriminate|].
  destruct (matchHere p _) as [[mt0 gs0]|] eqn:H0; [|discriminate].
  intros [= <- <-]. by exists a, s0, mt0.
Qed.

(** What the dot of a pattern matched, when something follows it: the bytes
    of one rune, which is not the line feed. *)
Lemma dot_one_rune s rest :
  (match s with String a _ => a ≠ newline | EmptyString => False end) →
  dropS (decodeRune s).2 s = rest → rest ≠ "" →
  s = takeS (decodeRune s).2 s +:+ rest
  ∧ takeS (decodeRune s).2 s ≠ ""
  ∧ (String.length (takeS (decodeRune s).2 s) ≤ 4)%nat
  ∧ ∃ r, runes (takeS (decodeRune s).2 s) = [(r, takeS (decodeRune s).2 s)] ∧ r ≠ 10%N.
Proof.
  intros Hs Hdrop Hrest. destruct s as [|a s0]; [done|].
  set (s := String a s0) in *. set (w := (decodeRune s).2) in *.
  assert (s = takeS w s +:+ rest) as Hsplit by by rewrite <- Hdrop, takeS_dropS.
  assert (String.length (takeS w s) = w) as Hlen by (apply takeS_full; by rewrite Hdrop).
  assert (takeS w s ≠ "") as Hne.
  { apply takeS_nonempty; [|done]. by apply decodeRune_width. }
  split; [done|]. split; [done|]. split.
  { rewrite Hlen. by apply decodeRune_width. }
  exists (decodeRune s).1. split.
  - apply runes_one; [done|]. apply (decodeRune_alone _ rest); [done|].
    rewrite <- Hsplit, Hlen. by destruct (decodeRune s).
  - intros Hr. apply Hs. by apply (decodeRune_lf a s0).
Qed.

(** What [githubRegexp] finds: the text [github], the bytes of exactly one
    rune, which is not the line feed (the pattern has a dot there, not a
    literal one), [com/], and two segments separated by a slash, which are
    the two groups.  The groups are not empty and hold no slash, space or
    line feed, and the second runs up to the next such character or to the
    end of the string. *)
Theorem github_match_shape s m :
  FindStringSubmatch githubRegexp s = Some m →
  ∃ pre d user repo post,
    s = pre +:+ "github" +:+ d +:+ "com/" +:+ user +:+ "/" +:+ repo +:+ post
    ∧ m = ["github" +:+ d +:+ "com/" +:+ user +:+ "/" +:+ repo; user; repo]
    ∧ d ≠ "" ∧ (String.length d ≤ 4)%nat
    ∧ (∃ r, runes d = [(r, d)] ∧ r ≠ 10%N)
    ∧ segment user ∧ segment repo
    ∧ (post = "" ∨ ∃ c post', post = String c post' ∧ ¬ groupChar c).
Proof.
  intros (pre & s0 & mt & gs & -> & Hm & ->)%FindStringSubmatch_Some.
  unfold githubRegexp in Hm.
  apply matchHere_lits in Hm as (s1 & mt1 & -> & -> & Hm).
  change ([Dot] ++ ?x) with (Dot :: x) in Hm.
  apply matchHere_dot_drop in Hm as (a & s1' & mt2 & Hs1a & Hnl & -> & Hm).
  apply matchHere_lits in Hm as (s3 & mt3 & Hdrop & -> & Hm).
  destruct (dot_one_rune s1 ("com/" +:+ s3)) as (Hs1 & Hdne & Hdlen & Hrune);
    [by rewrite Hs1a|done|done|].
  set (d := takeS (decodeRune s1).2 s1) in *. clearbody d. clear Hdrop Hs1a.
  rewrite matchHere_many in Hm.
  destruct (manyRun _ _ s3) as [[user r]|] eqn:Hu; [|discriminate].
  injection Hm as <- <-.
  apply manyRun_Some in Hu as (Hune & Huall & s4 & -> & Hm).
  destruct r as [mt4 gs4].
  change [Lit slash; ?x] with (lits "/" ++ [x]) in Hm.
  apply matchHere_lits in Hm as (s5 & mt5 & -> & -> & Hm).
  rewrite matchHere_many in Hm.
  destruct (manyRun _ _ s5) as [[repo r]|] eqn:Hr; [|discriminate].
  injection Hm as <- <-.
  destruct (manyRun_end _ _ _ _ _ Hr) as (post & -> & Hm & Hend).
  apply manyRun_Some in Hr as (Hrne & Hrall & _).
  apply manyRun_None in Hend; [|done].
  injection Hm as <-. simpl.
  exists pre, d, user, repo, post. rewrite Hs1, append_nil_r, ?append_assoc.
  split; [done|]. split; [done|]. split; [done|]. split; [done|]. split; [done|].
  split; [by apply segment_run|]. split; [by apply segment_run|].
  destruct Hend as [->|(c & post' & -> & Hc)]; [by left|]. right.
  exists c, post'. split; [done|]. by apply inClass_groupChar.
Qed.

End GithubPattern.

Lemma github_match_shape_witness :
  FindStringSubmatch githubRegexp "https://github.com/o/p.git/x"
  = Some ["github.com/o/p.git"; "o"; "p.git"]
  ∧ ∃ pre d user repo post,
      "https://github.com/o/p.git/x"
      = pre +:+ "github" +:+ d +:+ "com/" +:+ user +:+ "/" +:+ repo +:+ post
      ∧ ["github.com/o/p.git"; "o"; "p.git"]
        = ["github" +:+ d +:+ "com/" +:+ user +:+ "/" +:+ repo; user; repo]
      ∧ d ≠ "" ∧ (String.length d ≤ 4)%nat
      ∧ (∃ r, runes d = [(r, d)] ∧ r ≠ 10%N)
      ∧ segment user ∧ segment repo
      ∧ (post = "" ∨ ∃ c post', post = String c post' ∧ ¬ groupChar c).
Proof.
  split; [reflexivity|].
  apply (github_match_shape "https://github.com/o/p.git/x"). reflexivity.
Defined.

Section SelfMatch.

Implicit Types (p : list node) (s mt : string) (gs : list string).

Lemma matchHere_lits_intro l : ∀ p s mt gs,
  matchHere p s = Some (mt, gs) →
  matchHere (lits l ++ p) (l +:+ s) = Some (l +:+ mt, gs).
Proof.
  induction l as [|c l IH]; intros p s mt gs Hm; [done|].
  cbn [lits app]. rewrite append_cons. cbn [matchHere].
  rewrite Ascii.eqb_refl, (IH _ _ _ _ Hm). reflexivity.
Qed.

Lemma manyRun_intro k rest s' r : ∀ run,
  run ≠ "" →
  Forall (fun c => inClass k c = true) (String.list_ascii_of_string run) →
  manyRun k rest s' = None → rest s' = Some r →
  manyRun k rest (run +:+ s') = Some (run, r).
Proof.
  induction run as [|a run IH]; intros Hne Hall Hstop Hrest; [done|].
  cbn [String.list_ascii_of_string] in Hall. apply Forall_cons in Hall as [Ha Hall].
  rewrite append_cons. cbn [manyRun]. rewrite Ha. fold (manyRun k rest).
  destruct run as [|b run].
  - change ("" +:+ s') with s'. by rewrite Hstop, Hrest.
  - by rewrite IH.
Qed.

Lemma manyRun_stop k rest s :
  match s with String a _ => inClass k a = false | EmptyString => True end →
  manyRun k rest s = None.
Proof. destruct s as [|a s]; [done|]. cbn. by intros ->. Qed.

Lemma byteAt_app x y i : (i < String.length x)%nat → byteAt (x +:+ y) i = byteAt x i.
Proof.
  unfold byteAt. revert i. induction x as [|a x IH]; intros i Hi; simpl in Hi; [lia|].
  rewrite append_cons. destruct i as [|i]; [done|]. cbn [String.get]. apply IH. lia.
Qed.

(** The first rune of a string is read off its first four bytes. *)
Lemma decodeRune_app x y y' :
  (4 ≤ String.length x)%nat → decodeRune (x +:+ y) = decodeRune (x +:+ y').
Proof.
  intros Hx. unfold decodeRune. by rewrite !(byteAt_app x) by lia.
Qed.

Lemma takeS_app n x y : (n ≤ String.length x)%nat → takeS n (x +:+ y) = takeS n x.
Proof.
  unfold takeS. revert x. induction n as [|n IH]; intros [|a x] Hn; simpl in Hn; try lia.
  - by destruct y.
  - done.
  - rewrite append_cons. cbn [String.substring]. rewrite IH; [done|lia].
Qed.

Lemma dropS_app n x y : (n ≤ String.length x)%nat → dropS n (x +:+ y) = dropS n x +:+ y.
Proof.
  revert x. induction n as [|n IH]; intros [|a x] Hn; simpl in Hn; try lia; try done.
  rewrite append_cons. cbn [dropS]. apply IH. lia.
Qed.

Lemma length_append x y : String.length (x +:+ y) = (String.length x + String.length y)%nat.
Proof. induction x as [|a x IH]; [done|]. rewrite append_cons. simpl. by rewrite IH. Qed.

End SelfMatch.

Section GithubAgain.

Lemma matchHere_dot_inv p s mt gs :
  matchHere (Dot :: p) s = Some (mt, gs) →
  ∃ a s0 mt', s = String a s0 ∧ a ≠ newline
              ∧ mt = takeS (decodeRune s).2 s +:+ mt'
              ∧ matchHere p (dropS (decodeRune s).2 s) = Some (mt', gs).
Proof.
  cbn. destruct s as [|a s0]; [discriminate|].
  destruct (Ascii.eqb_spec a newline) as [|Hnl]; [discriminate|].
  destruct (matchHere p _) as [[mt0 gs0]|] eqn:H0; [|discriminate].
  intros [= <- <-]. by exists a, s0, mt0.
Qed.

Lemma matchHere_dot_intro p a s0 mt gs :
  a ≠ newline →
  matchHere p (dropS (decodeRune (String a s0)).2 (String a s0)) = Some (mt, gs) →
  matchHere (Dot :: p) (String a s0)
  = Some (takeS (decodeRune (String a s0)).2 (String a s0) +:+ mt, gs).
Proof.
  intros Hnl Hm. cbn [matchHere].
  destruct (Ascii.eqb_spec a newline) as [|_]; [done|]. by rewrite Hm.
Qed.

Lemma slash_not_inClass :
  inClass (NoneOf [slash; " "%char; newline]) slash = false.
Proof. reflexivity. Qed.

(** The dot reads the same rune in two strings that go on alike for four
    bytes after it. *)
Lemma dot_again p s c y y' mt gs :
  (match s with String a _ => a ≠ newline | EmptyString => False end) →
  dropS (decodeRune s).2 s = c +:+ y →
  (4 ≤ String.length c)%nat →
  matchHere p (c +:+ y') = Some (mt, gs) →
  matchHere (Dot :: p) (takeS (decodeRune s).2 s +:+ c +:+ y')
  = Some (takeS (decodeRune s).2 s +:+ mt, gs).
Proof.
  intros Hs Hdrop Hc Hm.
  set (w := (decodeRune s).2) in *. set (d := takeS w s) in *.
  assert (String.length d = w) as Hlen.
  { apply takeS_full. rewrite Hdrop. destruct c; [simpl in Hc; lia|discriminate]. }
  pose proof (takeS_dropS w s) as Hsplit. fold d in Hsplit. rewrite Hdrop in Hsplit.
  assert (decodeRune (d +:+ c +:+ y') = decodeRune s) as Hrune.
  { rewrite <- Hsplit, <- !(append_assoc d c).
    apply decodeRune_app. rewrite length_append. lia. }
  destruct s as [|a s0]; [done|].
  assert (d ≠ "") as Hdne.
  { unfold d. apply takeS_nonempty; [|done]. unfold w. by apply decodeRune_width. }
  destruct d as [|a' d'] eqn:Hd; [done|].
  assert (a' = a) as -> by (rewrite append_cons in Hsplit; by injection Hsplit).
  rewrite !append_cons in *. cbn [matchHere].
  destruct (Ascii.eqb_spec a newline) as [|_]; [done|].
  rewrite Hrune. fold w.
  rewrite <- (append_cons a d' (c +:+ y')).
  rewrite takeS_app by lia. rewrite dropS_app by lia.
  rewrite <- Hlen, takeS_all, dropS_all. change ("" +:+ ?x) with x. rewrite Hm.
  reflexivity.
Qed.

(** The text that [githubRegexp] found matches it once more, as a whole and
    with the same groups. *)
Lemma github_match_again s m :
  FindStringSubmatch githubRegexp s = Some m →
  FindStringSubmatch githubRegexp (group m 0) = Some m.
Proof.
  intros (pre & s0 & mt & gs & -> & Hm & ->)%FindStringSubmatch_Some.
  change (group (mt :: gs) 0) with mt.
  enough (matchHere githubRegexp mt = Some (mt, gs)) as Hagain.
  { destruct mt; unfold FindStringSubmatch; by rewrite Hagain. }
  unfold githubRegexp in *.
  apply matchHere_lits in Hm as (s1 & mt1 & -> & -> & Hm).
  change ([Dot] ++ ?x) with (Dot :: x) in *.
  apply matchHere_dot_inv in Hm as (a & s1' & mt2 & Hs1 & Hnl & -> & Hm).
  apply matchHere_lits in Hm as (s3 & mt3 & Hs2 & -> & Hm).
  rewrite matchHere_many in Hm.
  destruct (manyRun _ _ s3) as [[user r]|] eqn:Hu; [|discriminate].
  injection Hm as <- <-.
  apply manyRun_Some in Hu as (Hune & Huall & s4 & -> & Hm).
  destruct r as [mt4 gs4].
  change [Lit slash; ?x] with (lits "/" ++ [x]) in *.
  apply matchHere_lits in Hm as (s5 & mt5 & -> & -> & Hm).
  rewrite matchHere_many in Hm.
  destruct (manyRun _ _ s5) as [[repo r]|] eqn:Hr; [|discriminate].
  injection Hm as <- <-.
  apply manyRun_Some in Hr as (Hrne & Hrall & post & -> & Hm).
  injection Hm as <-. cbn [fst snd].
  apply matchHere_lits_intro.
  eapply (dot_again _ s1 "com/"); [by subst s1|exact Hs2|simpl; lia|].
  apply matchHere_lits_intro. rewrite matchHere_many.
  rewrite (manyRun_intro _ _ ("/" +:+ repo +:+ "") (("/" +:+ repo +:+ ""), [repo]));
    [done|done|done|by apply manyRun_stop|].
  apply (matchHere_lits_intro "/"). rewrite matchHere_many.
  by rewrite (manyRun_intro _ _ "" ("", [])).
Qed.

End GithubAgain.

(** ** More on meta-import discovery *)

Section DiscoveryMore.

Implicit Types (imports : list metaImport) (attrs : list (string * string))
  (toks pre post : list Token) (fin : option error).

(** [charsetReader] accepts the charset [ascii], in any case of letters,
    and hands back the reader it was given; every other charset, [utf-8]
    too, is an error whose text quotes the charset. *)
Theorem charsetReader_ascii_only (Reader : Type) (quoted : string -> string)
    (charset : string) (input : Reader) :
  (ToLower charset = "ascii" → charsetReader Reader quoted charset input = inr input)
  ∧ (ToLower charset ≠ "ascii" →
     charsetReader Reader quoted charset input
     = inl (Errorf ("can't decode XML document using charset " +:+ quoted charset)))
  ∧ charsetReader Reader quoted "ASCII" input = inr input
  ∧ charsetReader Reader quoted "utf-8" input
    = inl (Errorf ("can't decode XML document using charset " +:+ quoted "utf-8")).
Proof.
  unfold charsetReader. split; [|split; [|split; reflexivity]].
  - by intros ->.
  - intros Hne. by destruct (String.eqb_spec (ToLower charset) "ascii").
Qed.

(** [attrValue] is the value of the first attribute whose name is the key
    up to the case of letters, and the empty string when no attribute has
    that name. *)
Theorem attrValue_first_match attrs name :
  (Forall (fun kv => EqualFold kv.1 name = false) attrs → attrValue attrs name = "")
  ∧ (∀ before k v after,
       attrs = before ++ (k, v) :: after →
       Forall (fun kv => EqualFold kv.1 name = false) before →
       EqualFold k name = true →
       attrValue attrs name = v).
Proof.
  split.
  - induction 1 as [|[k v] rest Hk _ IH]; [done|]. simpl in *. by rewrite Hk.
  - intros before k v after -> Hpre Hk.
    induction Hpre as [|[k' v'] rest Hk' _ IH]; simpl in *.
    + by rewrite Hk.
    + by rewrite Hk'.
Qed.

Lemma tokenStep_stop imports t : tokenStep imports t = None ↔ isStop t = true.
Proof.
  destruct t as [name attrs|name|]; simpl.
  - destruct (EqualFold name "body"); [done|]. by destruct (negb _).
  - by destruct (EqualFold name "head").
  - done.
Qed.

(** Parsing ends at the start of the body or the end of the head: what
    follows that token, and the way the document ends, have no effect, and
    no error is returned. *)
Theorem parse_ends_at_body_or_head pre t : ∀ imports post post' fin fin',
  isStop t = true →
  parseLoop imports (pre ++ t :: post) fin = parseLoop imports (pre ++ t :: post') fin'
  ∧ (parseLoop imports (pre ++ t :: post) fin).2 = None.
Proof.
  induction pre as [|t0 pre IH]; intros imports post post' fin fin' Hstop; simpl.
  - apply (tokenStep_stop imports) in Hstop. by rewrite Hstop.
  - destruct (tokenStep imports t0); [by apply IH|done].
Qed.

(** Tokens that are neither the start of a [meta] element nor one of the
    two at which parsing ends have no effect on the result. *)
Theorem parse_reads_meta_only toks : ∀ imports fin,
  parseLoop imports toks fin
  = parseLoop imports (List.filter (fun t => isStop t || isMeta t) toks) fin.
Proof.
  induction toks as [|t toks IH]; intros imports fin; [done|].
  cbn [List.filter].
  destruct (isStop t) eqn:Hstop; simpl.
  { apply (tokenStep_stop imports) in Hstop. by rewrite Hstop. }
  destruct (isMeta t) eqn:Hmeta; simpl.
  - destruct (tokenStep imports t); [apply IH|done].
  - assert (tokenStep imports t = Some imports) as ->; [|apply IH].
    destruct t as [name attrs|name|]; simpl in *; [|by rewrite Hstop|done].
    by rewrite Hstop, Hmeta.
Qed.

End DiscoveryMore.

Lemma attrValue_first_match_witness :
  let attrs := [("http-equiv", "x"); ("NAME", "go-import"); ("name", "other")] in
  Forall (fun kv : string * string => EqualFold kv.1 "name" = false) [("http-equiv", "x")]
  ∧ EqualFold "NAME" "name" = true
  ∧ attrValue attrs "name" = "go-import".
Proof.
  cbv zeta. split; [by repeat constructor|]. split; [reflexivity|].
  apply (proj2 (attrValue_first_match _ "name") [("http-equiv", "x")] "NAME" "go-import"
           [("name", "other")]); [reflexivity|by repeat constructor|reflexivity].
Defined.

Lemma parse_ends_at_body_or_head_witness :
  let t := StartElement "BODY" [] in
  let late := StartElement "meta" [("name", "go-import");
                                   ("content", "example.org/pkg git https://example.org/late")] in
  isStop t = true
  ∧ parseLoop [] (sampleHead ++ t :: [late]) (Some (Opaque "unexpected EOF"))
    = parseLoop [] (sampleHead ++ t :: []) None.
Proof.
  cbv zeta. split; [reflexivity|].
  apply (parse_ends_at_body_or_head sampleHead (StartElement "BODY" [])). reflexivity.
Defined.

Section Tags.

Implicit Types (imports : list metaImport) (attrs : list (string * string)).

Lemma append_nonempty_r x y : y ≠ "" → x +:+ y ≠ "".
Proof. intros Hy. destruct x; [done|]. by rewrite append_cons. Qed.

Lemma runesFuel_nonempty fuel : ∀ s,
  Forall (fun rb : N * string => rb.2 ≠ "") (runesFuel fuel s).
Proof.
  induction fuel as [|fuel IH]; intros s; [constructor|].
  destruct s as [|a s]; [constructor|]. cbn [runesFuel].
  pose proof (decodeRune_width (String a s)) as Hw.
  destruct (decodeRune (String a s)) as [r w]. constructor; [|apply IH].
  simpl in *. apply takeS_nonempty; [|done]. by apply Hw.
Qed.

Lemma fieldsGo_nonempty rs : ∀ cur,
  (∀ c, cur = Some c → c ≠ "") →
  Forall (fun rb : N * string => rb.2 ≠ "") rs →
  Forall (fun f => f ≠ "") (fieldsGo cur rs).
Proof.
  induction rs as [|[r bytes] rs IH]; intros cur Hcur Hrs; simpl.
  - destruct cur as [c|]; [|constructor]. repeat constructor. by apply Hcur.
  - apply Forall_cons in Hrs as [Hb Hrs]. simpl in Hb. destruct (IsSpace r).
    + apply Forall_app. split; [|by apply IH].
      destruct cur as [c|]; [|constructor]. repeat constructor. by apply Hcur.
    + apply IH; [|done]. intros c [= <-]. by apply append_nonempty_r.
Qed.

(** The fields [strings.Fields] returns are not empty. *)
Lemma Fields_nonempty s : Forall (fun f => f ≠ "") (Fields s).
Proof.
  unfold Fields, runes. apply fieldsGo_nonempty; [done|apply runesFuel_nonempty].
Qed.

Lemma github_match_nonempty s m :
  FindStringSubmatch githubRegexp s = Some m → group m 0 ≠ "".
Proof.
  intros (pre & s0 & mt & gs & -> & Hm & ->)%FindStringSubmatch_Some.
  unfold githubRegexp in Hm. by apply matchHere_lits in Hm as (s1 & mt1 & _ & -> & _).
Qed.

Lemma metaStep_tagOk imports attrs :
  Forall tagOk imports → Forall tagOk (metaStep imports attrs).
Proof.
  intros Hok. unfold metaStep.
  assert (Forall tagOk
            (if negb (String.eqb (attrValue attrs "name") "go-import") then imports
             else match Fields (attrValue attrs "content") with
                  | [f0; f1; f2] =>
                      imports ++ [{| Prefix := f0; VCS := f1; RepoRoot := f2 |}]
                  | _ => imports
                  end)) as Hrest.
  { destruct (negb _); [done|].
    pose proof (Fields_nonempty (attrValue attrs "content")) as Hf.
    destruct (Fields _) as [|f0 [|f1 [|f2 [|f3 fs']]]]; try done.
    apply Forall_app. split; [done|].
    apply Forall_cons in Hf as [H0 Hf]. apply Forall_cons in Hf as [H1 Hf].
    apply Forall_cons in Hf as [H2 _]. by repeat constructor. }
  destruct (String.eqb (attrValue attrs "name") "go-source" && (length imports =? 1)%nat)
    eqn:Hc; [|done].
  destruct (FindStringSubmatch githubRegexp (attrValue attrs "content")) as [m|] eqn:Hm;
    [|done].
  apply andb_true_iff in Hc as [_ Hlen].
  destruct imports as [|m0 [|m1 rest]]; try discriminate.
  apply Forall_cons in Hok as [(Hp & _ & _) _]. simpl.
  apply List.Forall_cons; [|apply List.Forall_nil].
  split; [done|]. split; [done|]. simpl. by eapply github_match_nonempty.
Qed.

Lemma parseLoop_tagOk toks fin : ∀ imports,
  Forall tagOk imports → Forall tagOk (parseLoop imports toks fin).1.
Proof.
  induction toks as [|t toks IH]; intros imports Hok; simpl.
  - destruct fin; [|done]. by destruct (0 <? length imports)%nat.
  - destruct (tokenStep imports t) as [imports'|] eqn:Hstep; [|done].
    apply IH. destruct t as [name attrs|name|]; simpl in Hstep.
    + destruct (EqualFold name "body"); [discriminate|].
      destruct (negb _); injection Hstep as <-; [done|by apply metaStep_tagOk].
    + destruct (EqualFold name "head"); [discriminate|]. by injection Hstep as <-.
    + by injection Hstep as <-.
Qed.

(** No tag that parsing collects has an empty field; so the tag that
    [getGoImports] returns has a prefix, a kind and a repository root that are
    not empty. *)
Theorem discovered_tag_has_fields :
  (∀ r, Forall tagOk (parseMetaGoImports r).1)
  ∧ (∀ E path w m, (getGoImports E path w).2 = inr m → tagOk m).
Proof.
  assert (∀ r, Forall tagOk (parseMetaGoImports r).1) as Hparse.
  { intros r. unfold parseMetaGoImports. by apply parseLoop_tagOk. }
  split; [done|]. intros E path w m. unfold getGoImports.
  destruct (httpGet E _) as [err|resp]; [discriminate|].
  specialize (Hparse (rawTokens E resp)).
  destruct (parseMetaGoImports (rawTokens E resp)) as [imports [err|]]; [discriminate|].
  destruct imports as [|m0 [|m1 rest]]; simpl; try discriminate.
  intros [= <-]. simpl in Hparse. by apply Forall_cons in Hparse as [? _].
Qed.

(** The tag that the [go-source] rule puts in place passes the test of
    [download] on its kind, and its repository root matches [githubRegexp]
    once more, with the owner and the repository found in the content of the
    [go-source] tag. *)
Theorem go_source_tag_is_github m0 attrs m :
  attrValue attrs "name" = "go-source" →
  FindStringSubmatch githubRegexp (attrValue attrs "content") = Some m →
  ∃ t, metaStep [m0] attrs = [t]
       ∧ Prefix t = Prefix m0
       ∧ String.eqb (ToLower (VCS t)) "git" = true
       ∧ FindStringSubmatch githubRegexp (RepoRoot t) = Some m.
Proof.
  intros Hname Hm. exists (githubImport m0 m).
  split; [by apply metaStep_replace|]. split; [done|]. split; [done|].
  by apply (github_match_again (attrValue attrs "content")).
Qed.

End Tags.

Lemma go_source_tag_is_github_witness :
  let m0 := {| Prefix := "example.org/pkg"; VCS := "hg";
               RepoRoot := "https://example.org/hg/pkg" |} in
  let attrs := [("name", "go-source");
                ("content", "example.org/pkg https://github.com/o/p/ https://github.com/o/p/tree/master")] in
  let m := ["github.com/o/p"; "o"; "p"] in
  attrValue attrs "name" = "go-source"
  ∧ FindStringSubmatch githubRegexp (attrValue attrs "content") = Some m
  ∧ ∃ t, metaStep [m0] attrs = [t]
         ∧ Prefix t = Prefix m0
         ∧ String.eqb (ToLower (VCS t)) "git" = true
         ∧ FindStringSubmatch githubRegexp (RepoRoot t) = Some m.
Proof.
  cbv zeta. split; [reflexivity|]. split; [reflexivity|].
  apply go_source_tag_is_github; reflexivity.
Defined.

(** ** More on the dispatch of [download] *)

Section DispatchMore.

Variable E : Env.

Implicit Types (pj : project) (w : World).

(** A source on GitHub is fetched as an archive of the matched owner and
    repository at the revision of the project: [download] ends as
    [dlGithub] does, and what it does is one line of output, the call of
    [dlGithub], one request, for the tarball, and the events of the
    extraction loop; there is no discovery, no call of [dlGit] and no run of
    the git client. *)
Theorem download_github_source pj w m :
  FindStringSubmatch githubRegexp (srcOf pj) = Some m →
  let w1 := emit (Println ["Downloading from github:"; Name pj; "("; srcOf pj;
                           Revision pj; ")"]) w in
  let r := dlGithub E (withTable pj) (group m 1) (group m 2) w1 in
  download E pj w = (r.1, match r.2 with Some err => Panic err | None => Done end)
  ∧ ∃ evs, added w (download E pj w).1
           = Println ["Downloading from github:"; Name pj; "("; srcOf pj; Revision pj; ")"]
             :: CallDlGithub (group m 1) (group m 2)
             :: HttpGet (tarballUrl (group m 1) (group m 2) (Revision pj)) :: evs
           ∧ Forall loopEvent evs.
Proof.
  intros Hm. cbv zeta. rewrite (download_github E pj w m Hm). cbv zeta. split; [done|].
  match goal with |- context [dlGithub E ?p ?u ?r ?w0] =>
    destruct (dlGithub_trace E p u r w0) as (evs & Hevs & Hq) end.
  exists evs. split; [|done]. apply added_app. simpl in *.
  by rewrite Hevs, <- app_assoc.
Qed.

Lemma github_skip a s :
  a ≠ "g"%char →
  FindStringSubmatch githubRegexp (String a s) = FindStringSubmatch githubRegexp s.
Proof.
  intros Ha. unfold FindStringSubmatch at 1. fold (FindStringSubmatch githubRegexp).
  unfold githubRegexp at 1. cbn [lits app matchHere].
  by destruct (Ascii.eqb_spec a "g").
Qed.

Lemma github_https s :
  FindStringSubmatch githubRegexp ("https://" +:+ s) = FindStringSubmatch githubRegexp s.
Proof.
  change ("https://" +:+ s)
    with (String "h" (String "t" (String "t" (String "p" (String "s"
            (String ":" (String "/" (String "/" s)))))))).
  by rewrite !github_skip.
Qed.

(** What [dlGit] adds to the trace for a path that does not match
    [githubRegexp]: its call and runs of the git client. *)
Lemma dlGit_plain_trace pj path w :
  FindStringSubmatch githubRegexp path = None →
  ∃ evs, trace (dlGit E pj path w).1 = trace w ++ CallDlGit path :: evs
         ∧ Forall (fun e => notCallDlGit e ∧ notHttp e
                            ∧ ∀ user repo, e ≠ CallDlGithub user repo) evs.
Proof.
  intros Hm. unfold dlGit. rewrite Hm.
  destruct (Os.MkdirAll _ _ _) as [f [err|]].
  { exists []. simpl. by split. }
  destruct (git E [_; path; _] _ _) as [[f1 out1] [err1|]].
  { eexists. simpl. rewrite <- app_assoc. split; [reflexivity|]. by repeat constructor. }
  destruct (git E _ _ _) as [[f2 out2] [err2|]];
    (eexists; simpl; rewrite <- !app_assoc; split; [reflexivity|]; by repeat constructor).
Qed.

(** A source on gopkg.in that is written without a scheme is cloned from the
    source with [https://] before it: [download] calls [dlGit] on that URL
    and on nothing else, the URL does not match [githubRegexp], and no
    request is made, neither for an archive nor for discovery. *)
Theorem download_gopkg_plain pj w g :
  FindStringSubmatch githubRegexp (srcOf pj) = None →
  FindStringSubmatch gopkgRegexp (srcOf pj) = Some g →
  HasPrefix (srcOf pj) "https://" = false →
  download E pj w
  = afterGit (withTable pj)
      (dlGit E (withTable pj) ("https://" +:+ srcOf pj)
         (emit (Println ["Downloading from gopkg:"; Name pj; "("; srcOf pj;
                         Revision pj; ")"]) w))
  ∧ FindStringSubmatch githubRegexp ("https://" +:+ srcOf pj) = None
  ∧ CallDlGit ("https://" +:+ srcOf pj) ∈ added w (download E pj w).1
  ∧ (∀ path, CallDlGit path ∈ added w (download E pj w).1 →
             path = "https://" +:+ srcOf pj)
  ∧ Forall (fun e => notHttp e ∧ ∀ user repo, e ≠ CallDlGithub user repo)
           (added w (download E pj w).1).
Proof.
  intros Hgh Hgo Hpre.
  assert (FindStringSubmatch githubRegexp ("https://" +:+ srcOf pj) = None) as Hurl.
  { by rewrite github_https. }
  rewrite (download_gopkg E pj w g Hgh Hgo). unfold gopkgUrl. rewrite Hpre. simpl negb.
  cbv iota. split; [done|]. split; [done|].
  match goal with |- context [dlGit E ?p ?u ?w0] =>
    destruct (dlGit_plain_trace p u w0 Hurl) as (evs & Hevs & Hq);
    destruct (dlGit E p u w0) as [w1 r] end.
  destruct (afterGit_trace (withTable pj) w1 r) as (evs' & Hevs' & Hq' & Hx').
  assert (Forall (fun e => notHttp e ∧ ∀ user repo, e ≠ CallDlGithub user repo) evs') as Hs'.
  { clear -Hevs'. destruct r as [log [err|]]; simpl in Hevs'.
    - destruct log as [l|]; simpl in Hevs'; rewrite <- ?app_assoc in Hevs';
        apply app_inv_head in Hevs' as <-; by repeat constructor.
    - rewrite <- (app_nil_r (trace w1)) in Hevs' at 1. by apply app_inv_head in Hevs' as <-. }
  simpl in Hevs. rewrite Hevs, <- !app_assoc in Hevs'.
  rewrite (added_app _ _ _ Hevs'). simpl. rewrite Forall_forall in Hq, Hq'.
  split; [|split].
  - rewrite !elem_of_cons. right. by left.
  - intros path. rewrite !elem_of_cons, elem_of_app.
    intros [?|[Heq|[Hin|Hin]]]; [done|by injection Heq| |].
    + by destruct (proj1 (Hq _ Hin) path).
    + by destruct (Hq' _ Hin path).
  - constructor; [by split|]. constructor; [by split|].
    apply Forall_app. split; [|done]. apply Forall_forall. intros e He.
    by destruct (Hq _ He) as (_ & ? & ?).
Qed.

(** A source that reaches discovery and is given a git repository whose
    root matches [githubRegexp] is fetched as an archive of the matched owner
    and repository: [download] ends as [dlGithub] does and never runs the git
    client. *)
Theorem discovered_github_root_is_archive pj w w1 meta m :
  FindStringSubmatch githubRegexp (srcOf pj) = None →
  FindStringSubmatch gopkgRegexp (srcOf pj) = None →
  getGoImports E (srcOf pj) w = (w1, inr meta) →
  ToLower (VCS meta) = "git" →
  FindStringSubmatch githubRegexp (RepoRoot meta) = Some m →
  let w2 := emit (CallDlGit (RepoRoot meta))
              (emit (Println ["Downloading from go-imports:"; Name pj; "(";
                              RepoRoot meta; Revision pj; ")"]) w1) in
  let r := dlGithub E (withTable pj) (group m 1) (group m 2) w2 in
  (download E pj w).2 = match r.2 with Some err => Panic err | None => Done end
  ∧ fs (download E pj w).1 = fs r.1
  ∧ CallDlGithub (group m 1) (group m 2) ∈ added w (download E pj w).1
  ∧ Forall notExec (added w (download E pj w).1).
Proof.
  intros Hgh Hgo Hget Hgit Hm. cbv zeta.
  rewrite (download_discovery E pj w Hgh Hgo), Hget, Hgit. simpl negb. cbv iota.
  rewrite (dlGit_github E (withTable pj) (RepoRoot meta) _ m Hm).
  pose proof (getGoImports_trace E (srcOf pj) w) as Htr. rewrite Hget in Htr. simpl in Htr.
  match goal with |- context [dlGithub E ?p ?u ?r ?w0] =>
    destruct (dlGithub_trace E p u r w0) as (evs & Hevs & Hq);
    destruct (dlGithub E p u r w0) as [w3 [err|]] end; simpl in Hevs |- *;
    rewrite Htr, <- !app_assoc in Hevs; simpl in Hevs;
    apply loopEvents_not_git in Hq as [Hq _].
  - split; [done|]. split; [done|].
    rewrite (added_app w _ (HttpGet ("https://" +:+ srcOf pj +:+ "?go-get=1")
      :: Println ["Downloading from go-imports:"; Name pj; "("; RepoRoot meta; Revision pj; ")"]
      :: CallDlGit (RepoRoot meta) :: CallDlGithub (group m 1) (group m 2)
      :: HttpGet (tarballUrl (group m 1) (group m 2) (Revision pj))
      :: evs ++ [Stderr (Name pj); Stderr (errorText err)])).
    + split; [rewrite !elem_of_cons; tauto|].
      repeat (constructor; [done|]). apply Forall_app. split; [done|]. by repeat constructor.
    + simpl. rewrite Hevs. by rewrite <- !app_assoc.
  - split; [done|]. split; [done|]. rewrite (added_app _ _ _ Hevs).
    split; [rewrite !elem_of_cons; tauto|]. by repeat (constructor; [done|]).
Qed.

End DispatchMore.

Lemma download_github_source_witness :
  let E := sampleEnv sampleArchive [] in
  let pj := sampleProject "example.org/mirror" "https://github.com/o/p" ["."] in
  FindStringSubmatch githubRegexp (srcOf pj) = Some ["github.com/o/p"; "o"; "p"]
  ∧ (download E pj emptyWorld).2 = Done
  ∧ ∃ evs, added emptyWorld (download E pj emptyWorld).1
           = Println ["Downloading from github:"; Name pj; "("; srcOf pj; Revision pj; ")"]
             :: CallDlGithub "o" "p"
             :: HttpGet (tarballUrl "o" "p" (Revision pj)) :: evs
           ∧ Forall loopEvent evs.
Proof.
  cbv zeta. split; [reflexivity|]. split; [reflexivity|].
  apply (download_github_source (sampleEnv sampleArchive [])
           (sampleProject "example.org/mirror" "https://github.com/o/p" ["."])
           emptyWorld ["github.com/o/p"; "o"; "p"]).
  reflexivity.
Defined.

Lemma download_gopkg_plain_witness :
  let E := sampleEnv [] [] in
  let pj := sampleProject "gopkg.in/yaml.v2" "" ["."] in
  FindStringSubmatch githubRegexp (srcOf pj) = None
  ∧ FindStringSubmatch gopkgRegexp (srcOf pj) = Some ["gopkg.in/yaml.v2"; "yaml.v2"]
  ∧ HasPrefix (srcOf pj) "https://" = false
  ∧ CallDlGit "https://gopkg.in/yaml.v2" ∈ added emptyWorld (download E pj emptyWorld).1
  ∧ trace (download E pj emptyWorld).1
    = [Stdout "Downloading from gopkg: gopkg.in/yaml.v2 ( gopkg.in/yaml.v2 abc )";
       CallDlGit "https://gopkg.in/yaml.v2";
       Exec ["git"; "clone"; "https://gopkg.in/yaml.v2"; "/w/vendor/gopkg.in/yaml.v2"] "";
       Exec ["git"; "reset"; "--hard"; "abc"] "/w/vendor/gopkg.in/yaml.v2"].
Proof.
  cbv zeta. split; [reflexivity|]. split; [reflexivity|]. split; [reflexivity|].
  split; [|reflexivity].
  apply (download_gopkg_plain (sampleEnv [] []) (sampleProject "gopkg.in/yaml.v2" "" ["."])
           emptyWorld ["gopkg.in/yaml.v2"; "yaml.v2"]); reflexivity.
Defined.

Lemma discovered_github_root_is_archive_witness :
  let E := sampleEnv sampleArchive sampleHead in
  let pj := sampleProject "example.org/pkg" "" ["."] in
  let meta := {| Prefix := "example.org/pkg"; VCS := "git"; RepoRoot := "github.com/o/p" |} in
  let w1 := {| fs := ∅; trace := [HttpGet "https://example.org/pkg?go-get=1"] |} in
  FindStringSubmatch githubRegexp (srcOf pj) = None
  ∧ FindStringSubmatch gopkgRegexp (srcOf pj) = None
  ∧ getGoImports E (srcOf pj) emptyWorld = (w1, inr meta)
  ∧ ToLower (VCS meta) = "git"
  ∧ FindStringSubmatch githubRegexp (RepoRoot meta) = Some ["github.com/o/p"; "o"; "p"]
  ∧ (download E pj emptyWorld).2 = Done
  ∧ CallDlGithub "o" "p" ∈ added emptyWorld (download E pj emptyWorld).1
  ∧ Forall notExec (added emptyWorld (download E pj emptyWorld).1).
Proof.
  cbv zeta. split; [reflexivity|]. split; [reflexivity|]. split; [reflexivity|].
  split; [reflexivity|]. split; [reflexivity|]. split; [reflexivity|].
  apply (discovered_github_root_is_archive (sampleEnv sampleArchive sampleHead)
           (sampleProject "example.org/pkg" "" ["."]) emptyWorld
           {| fs := ∅; trace := [HttpGet "https://example.org/pkg?go-get=1"] |}
           {| Prefix := "example.org/pkg"; VCS := "git"; RepoRoot := "github.com/o/p" |}
           ["github.com/o/p"; "o"; "p"]); reflexivity.
Defined.

(** ** Where the entries are written *)

Section Paths.

Implicit Types (s a b c : string) (xs ys acc : list string).

Lemma Split_nonempty s : Split s ≠ [].
Proof.
  destruct s as [|ch s']; [done|]. unfold Split; fold Split.
  destruct (Ascii.eqb ch slash); [done|]. by destruct (Split s').
Qed.

Lemma Split_slash s : Split (String slash s) = "" :: Split s.
Proof. reflexivity. Qed.

Lemma Split_other ch s x xs :
  ch ≠ slash → Split s = x :: xs → Split (String ch s) = String ch x :: xs.
Proof.
  intros Hch Hs. unfold Split; fold Split. rewrite Hs.
  by destruct (Ascii.eqb_spec ch slash).
Qed.

Lemma Split_app_slash a b : Split (a +:+ "/" +:+ b) = Split a ++ Split b.
Proof.
  induction a as [|ch a IH].
  - reflexivity.
  - rewrite append_cons. destruct (Ascii.eqb_spec ch slash) as [->|Hch].
    + by rewrite !Split_slash, IH.
    + destruct (Split a) as [|x xs] eqn:Ha; [by apply Split_nonempty in Ha|].
      rewrite (Split_other ch a x xs Hch Ha).
      apply Split_other; [done|]. by rewrite IH.
Qed.


Lemma Split_whole s : Forall whole (Split s).
Proof.
  induction s as [|ch s IH]; [by repeat constructor|].
  destruct (Ascii.eqb_spec ch slash) as [->|Hch].
  - rewrite Split_slash. by constructor.
  - destruct (Split s) as [|x xs] eqn:Hs; [by apply Split_nonempty in Hs|].
    rewrite (Split_other ch s x xs Hch Hs).
    apply Forall_cons in IH as [Hx Hxs]. constructor; [|done].
    unfold whole. by apply Split_other.
Qed.

Lemma JoinSlash_cons x y ys : JoinSlash (x :: y :: ys) = x +:+ "/" +:+ JoinSlash (y :: ys).
Proof. reflexivity. Qed.

Lemma Split_JoinSlash xs : xs ≠ [] → Forall whole xs → Split (JoinSlash xs) = xs.
Proof.
  induction xs as [|x xs IH]; [done|]. intros _ Hall.
  apply Forall_cons in Hall as [Hx Hxs].
  destruct xs as [|y ys]; [exact Hx|].
  rewrite JoinSlash_cons, Split_app_slash, Hx, IH; done.
Qed.


Lemma cleanStep_proper rooted acc c : proper c → cleanStep rooted acc c = c :: acc.
Proof.
  intros (H1 & H2 & H3). unfold cleanStep.
  destruct (String.eqb_spec c ""); [done|].
  destruct (String.eqb_spec c "."); [done|].
  by destruct (String.eqb_spec c "..").
Qed.

Lemma fold_names rooted xs : ∀ acc,
  ".." ∉ xs → fold_left (cleanStep rooted) xs acc = rev (names xs) ++ acc.
Proof.
  induction xs as [|x xs IH]; intros acc Hno; [done|].
  apply not_elem_of_cons in Hno as [Hx Hxs]. simpl.
  rewrite (IH _ Hxs). unfold cleanStep.
  destruct (String.eqb_spec x ""); [done|].
  destruct (String.eqb_spec x "."); [done|].
  destruct (String.eqb_spec x ".."); [done|].
  simpl. by rewrite <- app_assoc.
Qed.

Lemma names_proper xs : ".." ∉ xs → Forall proper (names xs).
Proof.
  induction xs as [|x xs IH]; intros Hno; [constructor|].
  apply not_elem_of_cons in Hno as [Hx Hxs]. simpl.
  destruct (String.eqb_spec x ""); simpl; [by apply IH|].
  destruct (String.eqb_spec x "."); simpl; [by apply IH|].
  constructor; [done|by apply IH].
Qed.

Lemma names_whole xs : Forall whole xs → Forall whole (names xs).
Proof.
  induction 1 as [|x xs Hx Hxs IH]; [constructor|]. simpl.
  destruct (negb _); [by constructor|done].
Qed.

Lemma fold_proper rooted xs : ∀ acc,
  Forall proper xs → fold_left (cleanStep rooted) xs acc = rev xs ++ acc.
Proof.
  induction xs as [|x xs IH]; intros acc Hall; [done|].
  apply Forall_cons in Hall as [Hx Hxs]. simpl.
  rewrite (cleanStep_proper _ _ _ Hx), (IH _ Hxs). by rewrite <- app_assoc.
Qed.

(** What the processing of a rooted path keeps names something. *)
Lemma fold_rooted_proper xs : ∀ acc,
  Forall proper acc → Forall proper (fold_left (cleanStep true) xs acc).
Proof.
  induction xs as [|x xs IH]; intros acc Hacc; [done|]. simpl. apply IH.
  unfold cleanStep.
  destruct (String.eqb_spec x ""); [done|].
  destruct (String.eqb_spec x "."); [done|].
  destruct (String.eqb_spec x "..") as [->|].
  - destruct acc as [|top rest]; [done|].
    apply Forall_cons in Hacc as [(_ & _ & Htop) Hrest].
    by destruct (String.eqb_spec top "..").
  - by constructor.
Qed.

Lemma fold_whole rooted xs : ∀ acc,
  Forall whole xs → Forall whole acc → Forall whole (fold_left (cleanStep rooted) xs acc).
Proof.
  induction xs as [|x xs IH]; intros acc Hxs Hacc; [done|].
  apply Forall_cons in Hxs as [Hx Hxs]. simpl. apply IH; [done|].
  unfold cleanStep.
  destruct (String.eqb x ""); [done|].
  destruct (String.eqb x "."); [done|].
  destruct (String.eqb x "..").
  - destruct acc as [|top rest]; [by destruct rooted; repeat constructor|].
    destruct (String.eqb top ".."); [by constructor|].
    by apply Forall_cons in Hacc as [_ ?].
  - by constructor.
Qed.


Lemma JoinSlash_nonempty xs : xs ≠ [] → Forall proper xs → JoinSlash xs ≠ "".
Proof.
  destruct xs as [|x xs]; [done|]. intros _ Hall.
  apply Forall_cons in Hall as [(Hx & _) _].
  destruct x as [|ch x]; [done|]. destruct xs; [done|]. by rewrite JoinSlash_cons.
Qed.

Lemma HasPrefix_slash ch s : HasPrefix (String ch s) "/" = bool_decide (ch = slash).
Proof.
  unfold HasPrefix. cbn [String.prefix].
  destruct (ascii_dec "/" ch) as [<-|Hne]; [by destruct s|].
  rewrite bool_decide_eq_false_2; [done|]. intros ->. by apply Hne.
Qed.

Lemma whole_not_rooted s t : whole s → s ≠ "" → HasPrefix (s +:+ t) "/" = false.
Proof.
  intros Hs Hne. destruct s as [|ch s]; [done|].
  rewrite append_cons, HasPrefix_slash. apply bool_decide_eq_false_2. intros ->.
  unfold whole in Hs. rewrite Split_slash in Hs. discriminate.
Qed.

Lemma rooted_Split s : HasPrefix s "/" = true → ∃ s', s = String slash s'.
Proof.
  destruct s as [|ch s]; [done|]. rewrite HasPrefix_slash.
  intros ->%bool_decide_eq_true. by exists s.
Qed.

Lemma rooted_app s t : HasPrefix s "/" = true → HasPrefix (s +:+ t) "/" = true.
Proof. intros [s' ->]%rooted_Split. by rewrite append_cons, HasPrefix_slash. Qed.

(** The segments of [Join rest], processed, are the names among [rest]. *)
Lemma fold_Join rest : ∀ acc,
  Forall whole rest → ".." ∉ rest →
  fold_left (cleanStep true) (Split (Join rest)) acc = rev (names rest) ++ acc.
Proof.
  induction rest as [|e rest IH]; intros acc Hall Hno; [done|].
  apply Forall_cons in Hall as Hall'. destruct Hall' as [He Hrest].
  apply not_elem_of_cons in Hno as Hno'. destruct Hno' as [Hne Hnr].
  unfold Join; fold Join. destruct (String.eqb_spec e "") as [->|Hemp].
  - by apply IH.
  - unfold Clean.
    assert (HasPrefix (JoinSlash (e :: rest)) "/" = false) as ->.
    { destruct rest as [|y ys].
      - rewrite <- (append_nil_r e). by apply whole_not_rooted.
      - rewrite JoinSlash_cons. by apply whole_not_rooted. }
    rewrite Split_JoinSlash by done.
    rewrite (fold_names false _ _ Hno), app_nil_r, rev_involutive.
    pose proof (names_proper _ Hno) as Hp. pose proof (names_whole _ Hall) as Hw.
    destruct (names (e :: rest)) as [|n ns] eqn:Hn.
    + reflexivity.
    + destruct (String.eqb_spec (JoinSlash (n :: ns)) "") as [Heq|_].
      { by apply JoinSlash_nonempty in Heq. }
      rewrite Split_JoinSlash by done. by apply fold_proper.
Qed.

(** A rooted path that was cleaned names the location its segments spell. *)
Lemma resolve_rooted wd0 ys :
  Forall proper ys → Forall whole ys → Os.resolve wd0 ("/" +:+ JoinSlash ys) = ys.
Proof.
  intros Hp Hw. unfold Os.resolve.
  change ("/" +:+ JoinSlash ys) with (String slash (JoinSlash ys)).
  rewrite HasPrefix_slash, bool_decide_eq_true_2 by done.
  rewrite Split_slash. cbn [fold_left]. change (cleanStep true [] "") with (@nil string).
  destruct ys as [|y ys']; [done|].
  rewrite Split_JoinSlash by done. rewrite fold_proper by done.
  by rewrite app_nil_r, rev_involutive.
Qed.

Lemma Clean_rooted s :
  HasPrefix s "/" = true →
  Clean s = "/" +:+ JoinSlash (rev (fold_left (cleanStep true) (Split s) [])).
Proof. intros H. unfold Clean. by rewrite H. Qed.

Lemma Join_two a b : a ≠ "" → Join [a; b] = Clean (a +:+ "/" +:+ b).
Proof. intros Ha. unfold Join. destruct (String.eqb_spec a ""); [done|reflexivity]. Qed.

Lemma rooted_nonempty s : HasPrefix s "/" = true → s ≠ "".
Proof. by intros H ->. Qed.

Lemma Join_rooted a b : HasPrefix a "/" = true → HasPrefix (Join [a; b]) "/" = true.
Proof.
  intros Ha. rewrite Join_two by by apply rooted_nonempty.
  rewrite Clean_rooted by by apply rooted_app. by apply (rooted_app "/").
Qed.

Lemma resolve_self wd0 s :
  HasPrefix s "/" = true →
  Os.resolve wd0 s = rev (fold_left (cleanStep true) (Split s) []).
Proof. intros H. unfold Os.resolve. by rewrite H. Qed.

(** The location of [Join [baseDir; Join rest]] for a rooted [baseDir]. *)
Lemma resolve_Join wd0 baseDir rest :
  HasPrefix baseDir "/" = true → Forall whole rest → ".." ∉ rest →
  Os.resolve wd0 (Join [baseDir; Join rest]) = Os.resolve wd0 baseDir ++ names rest.
Proof.
  intros Hroot Hall Hno.
  rewrite Join_two by by apply rooted_nonempty.
  rewrite Clean_rooted by by apply rooted_app.
  rewrite Split_app_slash, fold_left_app, fold_Join by done.
  rewrite rev_app_distr, rev_involutive, (resolve_self _ _ Hroot).
  apply resolve_rooted.
  - apply Forall_app. split.
    + apply Forall_rev. by apply fold_rooted_proper.
    + by apply names_proper.
  - apply Forall_app. split.
    + apply Forall_rev. apply fold_whole; [apply Split_whole|done].
    + by apply names_whole.
Qed.


Lemma Clean_fixed wd0 s :
  HasPrefix s "/" = true → Clean s = "/" +:+ JoinSlash (Os.resolve wd0 (Clean s)).
Proof.
  intros Hs. rewrite (Clean_rooted _ Hs) at 2. rewrite resolve_rooted.
  - by apply Clean_rooted.
  - apply Forall_rev. by apply fold_rooted_proper.
  - apply Forall_rev. apply fold_whole; [apply Split_whole|done].
Qed.

Lemma entryTarget_inv baseDir table name target :
  entryTarget baseDir table name = Some target →
  target = Join [baseDir; Join (drop 1 (Split name))] ∧ target ≠ baseDir.
Proof.
  unfold entryTarget. destruct (_ && _); [done|].
  destruct (String.eqb_spec (Join [baseDir; Join (drop 1 (Split name))]) baseDir); [done|].
  by intros [= <-].
Qed.

Lemma baseDir_rooted E pj :
  HasPrefix (wd E) "/" = true → HasPrefix (Join [vendorDir E; Name pj]) "/" = true.
Proof. intros H. apply Join_rooted. unfold vendorDir. by apply Join_rooted. Qed.

Lemma entry_resolve wd0 a b table name target :
  HasPrefix a "/" = true →
  entryTarget (Join [a; b]) table name = Some target →
  ".." ∉ drop 1 (Split name) →
  Os.resolve wd0 target = Os.resolve wd0 (Join [a; b]) ++ names (drop 1 (Split name))
  ∧ names (drop 1 (Split name)) ≠ [].
Proof.
  intros Ha [-> Hne]%entryTarget_inv Hno.
  assert (Forall whole (drop 1 (Split name))) as Hw by apply Forall_drop, Split_whole.
  pose proof (Join_rooted a b Ha) as Hroot.
  pose proof (resolve_Join wd0 _ _ Hroot Hw Hno) as Hres.
  split; [done|]. intros Hnil. apply Hne.
  rewrite Hnil, app_nil_r in Hres.
  rewrite (Join_two (Join [a; b])) in * by by apply rooted_nonempty.
  rewrite (Clean_fixed wd0) by by apply rooted_app.
  rewrite Hres. rewrite (Join_two a b) by by apply rooted_nonempty.
  symmetry. apply Clean_fixed. by apply rooted_app.
Qed.

Lemma plain_staysInside E pj table items :
  HasPrefix (wd E) "/" = true → plainArchive items →
  staysInside E (Join [vendorDir E; Name pj]) table items.
Proof.
  intros Hwd Hplain. unfold staysInside. eapply Forall_impl; [exact Hplain|].
  intros it [Hlink Hno] target Ht. split; [done|].
  assert (HasPrefix (vendorDir E) "/" = true) as Hv by by apply Join_rooted.
  destruct (entry_resolve (wd E) _ _ _ _ _ Hv Ht Hno) as [-> _].
  by apply prefix_app_r.
Qed.

End Paths.

(** With a rooted working directory, the target of an entry whose name has
    no [..] segment after the first lies strictly below the target
    directory: it is the location spelled by the segments of the name after
    the first, the empty ones and [.] left out. *)
Theorem entry_written_below_target E pj name target :
  HasPrefix (wd E) "/" = true →
  entryTarget (Join [vendorDir E; Name pj]) (subdirTable pj) name = Some target →
  ".." ∉ drop 1 (Split name) →
  Os.resolve (wd E) target
  = Os.resolve (wd E) (Join [vendorDir E; Name pj]) ++ names (drop 1 (Split name))
  ∧ names (drop 1 (Split name)) ≠ [].
Proof.
  intros Hwd Ht Hno. apply (entry_resolve _ _ _ _ _ _ (Join_rooted _ _ Hwd) Ht Hno).
Qed.

Lemma entry_written_below_target_witness :
  let E := sampleEnv [] [] in
  let pj := withTable (sampleProject "github.com/o/p" "" ["foo"]) in
  HasPrefix (wd E) "/" = true
  ∧ entryTarget (Join [vendorDir E; Name pj]) (subdirTable pj) "W/foo/./a.txt"
    = Some "/w/vendor/github.com/o/p/foo/a.txt"
  ∧ (".." ∉ drop 1 (Split "W/foo/./a.txt"))
  ∧ Os.resolve (wd E) "/w/vendor/github.com/o/p/foo/a.txt"
    = Os.resolve (wd E) (Join [vendorDir E; Name pj]) ++ ["foo"; "a.txt"].
Proof.
  cbv zeta.
  assert (".." ∉ drop 1 (Split "W/foo/./a.txt")) as Hno.
  { apply (bool_decide_unpack _). vm_compute. exact I. }
  split; [reflexivity|]. split; [reflexivity|]. split; [exact Hno|].
  apply (entry_written_below_target (sampleEnv [] [])
           (withTable (sampleProject "github.com/o/p" "" ["foo"]))
           "W/foo/./a.txt" "/w/vendor/github.com/o/p/foo/a.txt");
    [reflexivity|reflexivity|exact Hno].
Defined.

(** ** What a fetch leaves alone *)

Section Rest.

Variable E : Env.
Variable B : Os.loc.

Implicit Types (F G H : Os.FS) (p q : Os.loc) (w : World).

Lemma restKept_refl F : restKept B F F.
Proof. intros p _. by left. Qed.

Lemma restKept_trans F G H : restKept B F G → restKept B G H → restKept B F H.
Proof.
  intros HFG HGH p Hp.
  destruct (HFG p Hp) as [Hfg|(Hf & Hg & Hpre)], (HGH p Hp) as [Hgh|(Hg' & Hh & Hpre')].
  - left. congruence.
  - right. rewrite <- Hfg. done.
  - right. rewrite Hgh. done.
  - congruence.
Qed.

Lemma mkdirs_changes comps : ∀ F cur F' e q,
  Os.mkdirs F cur comps = (F', e) →
  F' !! q = F !! q
  ∨ (F !! q = None ∧ F' !! q = Some Os.Directory
     ∧ ∃ ys, ys ≠ [] ∧ ys `prefix_of` comps ∧ q = cur ++ ys).
Proof.
  induction comps as [|c cs IH]; intros F cur F' e q Hmk; simpl in Hmk.
  - injection Hmk as <- <-. by left.
  - assert (∀ ys, ys ≠ [] ∧ ys `prefix_of` cs ∧ q = (cur ++ [c]) ++ ys →
                  ∃ ys', ys' ≠ [] ∧ ys' `prefix_of` c :: cs ∧ q = cur ++ ys') as Hup.
    { intros ys (Hys & Hpre & ->). exists (c :: ys). split; [done|].
      split; [by apply prefix_cons|]. by rewrite <- app_assoc. }
    destruct (F !! (cur ++ [c])) as [[mode data| |tgt]|] eqn:Hp;
      try (injection Hmk as <- <-; by left).
    + destruct (IH _ _ _ _ q Hmk) as [Heq|(Hn & Hd & ys & Hys)]; [by left|].
      right. split; [done|]. split; [done|]. by apply (Hup ys).
    + destruct (decide (q = cur ++ [c])) as [->|Hq].
      * right. split; [done|]. split.
        -- eapply mkdirs_preserves; [exact Hmk|]. apply lookup_insert_eq.
        -- exists [c]. split; [done|]. split; [|done]. by apply prefix_cons, prefix_nil.
      * destruct (IH _ _ _ _ q Hmk) as [Heq|(Hn & Hd & ys & Hys)].
        -- left. by rewrite Heq, lookup_insert_ne.
        -- right. rewrite lookup_insert_ne in Hn by done.
           split; [done|]. split; [done|]. by apply (Hup ys).
Qed.

Lemma MkdirAll_restKept F path :
  B `prefix_of` Os.resolve (wd E) path → restKept B F (Os.MkdirAll (wd E) F path).1.
Proof.
  intros Hpre p Hp. unfold Os.MkdirAll.
  destruct (Os.mkdirs F [] (Os.resolve (wd E) path)) as [F' e] eqn:Hmk. simpl.
  destruct (mkdirs_changes _ _ _ _ _ p Hmk) as [Heq|(Hn & Hd & ys & Hys & Hpy & ->)];
    [by left|].
  right. split; [done|]. split; [done|]. simpl in *.
  destruct (prefix_weak_total _ _ _ Hpy Hpre); done.
Qed.

Lemma OpenFile_restKept F path mode :
  B `prefix_of` Os.resolve (wd E) path →
  restKept B F (Os.OpenFile (wd E) (umask E) F path mode).1.
Proof.
  intros Hpre p Hp. left. unfold Os.OpenFile.
  destruct (F !! Os.resolve (wd E) path) as [[m d| |tgt]|]; try done.
  case_bool_decide; [done|]. destruct (Os.parentErr F _); [done|]. simpl.
  apply lookup_insert_ne. by intros <-.
Qed.

Lemma Write_restKept F path bytes :
  B `prefix_of` Os.resolve (wd E) path → restKept B F (Os.Write (wd E) F path bytes).
Proof.
  intros Hpre p Hp. left. unfold Os.Write.
  destruct (F !! Os.resolve (wd E) path) as [[m d| |tgt]|]; try done.
  apply lookup_insert_ne. by intros <-.
Qed.

Lemma RemoveAll_restKept F path :
  B = Os.resolve (wd E) path → restKept B F (Os.RemoveAll (wd E) F path).
Proof.
  intros -> p Hp. left. rewrite RemoveAll_lookup. unfold Os.under.
  by rewrite bool_decide_eq_false_2.
Qed.

Lemma writeEntry_restKept target it w :
  Typeflag (hdr it) ≠ TypeSymlink →
  B `prefix_of` Os.resolve (wd E) target →
  restKept B (fs w) (fs (writeEntry E target it w).1).
Proof.
  intros Hlink Hpre. unfold writeEntry.
  destruct (Ascii.eqb (Typeflag (hdr it)) TypeReg || Ascii.eqb (Typeflag (hdr it)) TypeRegA).
  - pose proof (OpenFile_restKept (fs w) target (Mode (hdr it)) Hpre) as Ho.
    destruct (Os.OpenFile (wd E) (umask E) (fs w) target (Mode (hdr it))) as [f1 [err|]]; [done|].
    simpl in Ho.
    pose proof (restKept_trans _ _ _ Ho (Write_restKept f1 target (content it) Hpre)).
    by destruct (contentErr it).
  - destruct (Ascii.eqb (Typeflag (hdr it)) TypeDir).
    + pose proof (MkdirAll_restKept (fs w) target Hpre) as Hm.
      by destruct (Os.MkdirAll (wd E) (fs w) target) as [f1 [err|]].
    + destruct (Ascii.eqb_spec (Typeflag (hdr it)) TypeSymlink); [done|].
      apply restKept_refl.
Qed.

Lemma extract_restKept baseDir table items fin : ∀ w,
  B = Os.resolve (wd E) baseDir →
  staysInside E baseDir table items →
  restKept B (fs w) (fs (extract E baseDir table items fin w).1).
Proof.
  induction items as [|it rest IH]; intros w HB Hin; simpl.
  - destruct fin; apply restKept_refl.
  - apply Forall_cons in Hin as [Hit Hrest].
    assert (∀ w', restKept B (fs w') (fs (nextEntry it w' (extract E baseDir table rest fin)).1))
      as Hnext.
    { intros w'. unfold nextEntry. destruct (contentErr it); [apply restKept_refl|].
      by apply IH. }
    destruct (entryTarget baseDir table (hName (hdr it))) as [target|] eqn:Ht;
      [|by apply Hnext].
    destruct (Hit target eq_refl) as [Hlink Hpre]. rewrite <- HB in Hpre.
    set (w1 := if verbose E then emit (Println ["Writing:"; target]) w else w).
    assert (fs w1 = fs w) as Hw1 by (unfold w1; by destruct (verbose E)).
    pose proof (writeEntry_restKept target it w1 Hlink Hpre) as Hwr. rewrite Hw1 in Hwr.
    destruct (writeEntry E target it w1) as [w2 [err|]]; [done|].
    eapply restKept_trans; [exact Hwr|]. apply (Hnext (emit _ w2)).
Qed.

Lemma dlGithub_restKept pj user repo w :
  B = Os.resolve (wd E) (Join [vendorDir E; Name pj]) →
  (∀ items fin, fetched E pj user repo = inr (items, fin) →
                staysInside E (Join [vendorDir E; Name pj]) (subdirTable pj) items) →
  restKept B (fs w) (fs (dlGithub E pj user repo w).1).
Proof.
  intros HB Hin. destruct (fetched E pj user repo) as [err|[items fin]] eqn:Hf.
  { destruct (dlGithub_stops E pj user repo err w Hf) as [_ ->]. apply restKept_refl. }
  specialize (Hin items fin eq_refl).
  pose proof (RemoveAll_restKept (fs w) _ HB) as Hrm.
  assert (B `prefix_of` Os.resolve (wd E) (Join [vendorDir E; Name pj])) as Hpre by by rewrite HB.
  pose proof (MkdirAll_restKept (Os.RemoveAll (wd E) (fs w) (Join [vendorDir E; Name pj]))
                _ Hpre) as Hmk.
  unfold fetched in Hf. unfold dlGithub.
  destruct (httpGet E _) as [e|resp]; [discriminate|].
  destruct (negb _); [discriminate|].
  destruct (BodyErr resp); [discriminate|].
  destruct (tarReader E _) as [e|[items' fin']]; [discriminate|].
  injection Hf as -> ->. simpl fs.
  destruct (Os.MkdirAll (wd E) _ _) as [F0 [err|]]; simpl in Hmk.
  - simpl. by eapply restKept_trans.
  - eapply restKept_trans; [by eapply restKept_trans|].
    by apply (extract_restKept _ _ items fin (setFs F0 _)).
Qed.

End Rest.

(** When no symbolic link is above the target directory, fetching an
    archive that has no symbolic link and no [..] segment leaves everything
    outside the target directory as it was, apart from missing directories
    above the target, which it creates. *)
Theorem fetch_keeps_rest E pj user repo w :
  HasPrefix (wd E) "/" = true →
  linkFree (fs w) (Os.parent (Os.resolve (wd E) (Join [vendorDir E; Name pj]))) →
  (∀ items fin, fetched E pj user repo = inr (items, fin) → plainArchive items) →
  restKept (Os.resolve (wd E) (Join [vendorDir E; Name pj]))
           (fs w) (fs (dlGithub E pj user repo w).1).
Proof.
  intros Hwd _ Hplain. apply dlGithub_restKept; [done|].
  intros items fin Hf. apply plain_staysInside; [done|]. by apply (Hplain items fin).
Qed.

Lemma fetch_keeps_rest_witness :
  let E := sampleEnv sampleArchive [] in
  let pj := withTable (sampleProject "github.com/o/p" "" ["."; "foo"]) in
  HasPrefix (wd E) "/" = true
  ∧ linkFree (fs otherWorld) (Os.parent (Os.resolve (wd E) (Join [vendorDir E; Name pj])))
  ∧ plainArchive sampleArchive
  ∧ (dlGithub E pj "o" "p" otherWorld).2 = None
  ∧ restKept (Os.resolve (wd E) (Join [vendorDir E; Name pj]))
             (fs otherWorld) (fs (dlGithub E pj "o" "p" otherWorld).1).
Proof.
  cbv zeta.
  assert (plainArchive sampleArchive) as Hplain.
  { unfold plainArchive, sampleArchive.
    repeat first [apply List.Forall_cons | apply List.Forall_nil];
      (split; [discriminate|]); apply (bool_decide_unpack _); vm_compute; exact I. }
  assert (noLinks (fs otherWorld)) as Hnone.
  { unfold noLinks. apply (bool_decide_unpack _). vm_compute. exact I. }
  assert (∀ p, linkFree (fs otherWorld) p) as Hfree.
  { intros p q x _ Hq. exact (Hnone q x Hq). }
  split; [reflexivity|]. split; [apply Hfree|]. split; [exact Hplain|].
  split; [reflexivity|].
  apply (fetch_keeps_rest (sampleEnv sampleArchive [])
           (withTable (sampleProject "github.com/o/p" "" ["."; "foo"])) "o" "p" otherWorld).
  - reflexivity.
  - apply Hfree.
  - intros items fin Hf. vm_compute in Hf. injection Hf as <- <-. exact Hplain.
Defined.

(** ** The raw fetch *)

Section RawFetch.

Variable E : Env.

(** After [os.RemoveAll] nothing is left at the path or below it. *)
Lemma tree_RemoveAll F path :
  Os.tree (Os.resolve (wd E) path) (Os.RemoveAll (wd E) F path) = ∅.
Proof.
  apply map_empty. intros p. unfold Os.tree. apply map_lookup_filter_None.
  rewrite RemoveAll_lookup. destruct (Os.under _ p) eqn:Hu; [by left|].
  right. intros x _. simpl. by rewrite Hu.
Qed.

(** A raw fetch that succeeds has made the directory above the target,
    cleared the target, cloned into it and then reset the clone to the
    revision of the entry, in the target directory; it ran nothing else, it
    returns no log, and it leaves the file system as the reset left it. *)
Theorem raw_fetch_success pj path w :
  FindStringSubmatch githubRegexp path = None →
  (dlGit E pj path w).2.2 = None →
  let baseDir := Join [vendorDir E; Name pj] in
  ∃ f f1 f2 out1 out2,
    Os.MkdirAll (wd E) (fs w) (Dir baseDir) = (f, None)
    ∧ Os.tree (Os.resolve (wd E) baseDir) (Os.RemoveAll (wd E) f baseDir) = ∅
    ∧ git E ["clone"; path; baseDir] "" (Os.RemoveAll (wd E) f baseDir) = (f1, out1, None)
    ∧ git E ["reset"; "--hard"; Revision pj] baseDir f1 = (f2, out2, None)
    ∧ fs (dlGit E pj path w).1 = f2
    ∧ (dlGit E pj path w).2.1 = None
    ∧ added w (dlGit E pj path w).1
      = [CallDlGit path; Exec ["git"; "clone"; path; baseDir] "";
         Exec ["git"; "reset"; "--hard"; Revision pj] baseDir].
Proof.
  intros Hm. cbv zeta. unfold dlGit. rewrite Hm.
  destruct (Os.MkdirAll _ _ _) as [f [err|]]; [done|]. simpl fs.
  destruct (git E [_; path; _] _ _) as [[f1 out1] [err1|]] eqn:Hclone; [done|].
  simpl fs.
  destruct (git E ("reset" :: _) _ _) as [[f2 out2] [err2|]] eqn:Hreset; [done|].
  intros _. exists f, f1, f2, out1, out2.
  split; [done|]. split; [apply tree_RemoveAll|]. split; [done|]. split; [done|].
  split; [done|]. split; [done|].
  apply added_app. simpl. by rewrite <- !app_assoc.
Qed.

(** [dlGithub] changes nothing on disk, and so keeps the copy of the
    package that is there, unless the archive was received with status 200,
    read to its end and its gzip header decoded. *)
Theorem archive_needed_to_touch_disk pj user repo w :
  fs (dlGithub E pj user repo w).1 ≠ fs w →
  ∃ resp items fin,
    httpGet E (tarballUrl user repo (Revision pj)) = inr resp
    ∧ StatusCode resp = 200%Z
    ∧ BodyErr resp = None
    ∧ tarReader E (Body resp) = inr (items, fin).
Proof.
  unfold dlGithub. intros Hfs.
  destruct (httpGet E _) as [err|resp] eqn:Hget; [by simpl in Hfs|].
  destruct (Z.eqb_spec (StatusCode resp) 200) as [Hst|]; [|by simpl in Hfs].
  destruct (BodyErr resp) eqn:Hbody; [by simpl in Hfs|].
  destruct (tarReader E _) as [err|[items fin]] eqn:Htar; [by simpl in Hfs|].
  by exists resp, items, fin.
Qed.

End RawFetch.

Lemma raw_fetch_success_witness :
  let E := sampleEnv [] [] in
  let pj := sampleProject "gopkg.in/yaml.v2" "" ["."] in
  FindStringSubmatch githubRegexp "https://gopkg.in/yaml.v2" = None
  ∧ (dlGit E pj "https://gopkg.in/yaml.v2" wdWorld).2.2 = None
  ∧ added wdWorld (dlGit E pj "https://gopkg.in/yaml.v2" wdWorld).1
    = [CallDlGit "https://gopkg.in/yaml.v2";
       Exec ["git"; "clone"; "https://gopkg.in/yaml.v2"; "/w/vendor/gopkg.in/yaml.v2"] "";
       Exec ["git"; "reset"; "--hard"; "abc"] "/w/vendor/gopkg.in/yaml.v2"].
Proof.
  cbv zeta. split; [reflexivity|]. split; [reflexivity|].
  destruct (raw_fetch_success (sampleEnv [] []) (sampleProject "gopkg.in/yaml.v2" "" ["."])
              "https://gopkg.in/yaml.v2" wdWorld eq_refl eq_refl)
    as (f & f1 & f2 & out1 & out2 & _ & _ & _ & _ & _ & _ & Hadd).
  exact Hadd.
Defined.

Lemma archive_needed_to_touch_disk_witness :
  let E := sampleEnv sampleArchive [] in
  let pj := withTable (sampleProject "github.com/o/p" "" ["."]) in
  fs (dlGithub E pj "o" "p" wdWorld).1 ≠ fs wdWorld
  ∧ ∃ resp items fin,
      httpGet E (tarballUrl "o" "p" (Revision pj)) = inr resp
      ∧ StatusCode resp = 200%Z
      ∧ BodyErr resp = None
      ∧ tarReader E (Body resp) = inr (items, fin).
Proof.
  cbv zeta.
  assert (fs (dlGithub (sampleEnv sampleArchive [])
                (withTable (sampleProject "github.com/o/p" "" ["."])) "o" "p" wdWorld).1
          ≠ fs wdWorld) as Hne.
  { intros Heq. apply (f_equal (fun m => m !! ["w"; "vendor"])) in Heq.
    vm_compute in Heq. discriminate. }
  split; [exact Hne|].
  exact (archive_needed_to_touch_disk (sampleEnv sampleArchive [])
           (withTable (sampleProject "github.com/o/p" "" ["."])) "o" "p" wdWorld Hne).
Defined.

(** ** The loop over the entries *)

Section Loop.

Variable E : Env.
Variable baseDir : string.
Variable table : gmap string bool.

(** The loop takes the entries in their order and ends at the first error:
    the entries after it are not looked at. *)
Theorem extract_in_order items1 items2 fin w :
  extract E baseDir table (items1 ++ items2) fin w
  = match extract E baseDir table items1 None w with
    | (w1, None) => extract E baseDir table items2 fin w1
    | (w1, Some err) => (w1, Some err)
    end.
Proof.
  revert w. induction items1 as [|it rest IH]; intros w; [done|]. simpl.
  assert (∀ w', nextEntry it w' (extract E baseDir table (rest ++ items2) fin)
                = match nextEntry it w' (extract E baseDir table rest None) with
                  | (w1, None) => extract E baseDir table items2 fin w1
                  | (w1, Some err) => (w1, Some err)
                  end) as Hnext.
  { intros w'. unfold nextEntry. destruct (contentErr it); [done|]. apply IH. }
  destruct (entryTarget baseDir table (hName (hdr it))) as [target|]; [|apply Hnext].
  destruct (writeEntry E target it _) as [w2 [err|]]; [done|]. apply Hnext.
Qed.

Lemma extract_events items fin : ∀ w,
  ∃ evs, trace (extract E baseDir table items fin w).1 = trace w ++ evs
  ∧ Forall (fun e => ∃ it target,
              it ∈ items
              ∧ entryTarget baseDir table (hName (hdr it)) = Some target
              ∧ (e = Chtimes target (AccessTime (hdr it)) (ModTime (hdr it))
                 ∨ (verbose E = true ∧ e = Println ["Writing:"; target]))) evs.
Proof.
  induction items as [|it rest IH]; intros w; simpl.
  - exists []. rewrite app_nil_r. by destruct fin.
  - set (P := fun (items : list TarItem) e => ∃ it target,
              it ∈ items
              ∧ entryTarget baseDir table (hName (hdr it)) = Some target
              ∧ (e = Chtimes target (AccessTime (hdr it)) (ModTime (hdr it))
                 ∨ (verbose E = true ∧ e = Println ["Writing:"; target]))).
    assert (∀ e, P rest e → P (it :: rest) e) as Hmono.
    { intros e (it' & target & Hin & Ht & He). exists it', target.
      split; [by apply list_elem_of_further|done]. }
    assert (∀ w0 evs0, trace w0 = trace w ++ evs0 → Forall (P (it :: rest)) evs0 →
        ∃ evs, trace (nextEntry it w0 (extract E baseDir table rest fin)).1 = trace w ++ evs
               ∧ Forall (P (it :: rest)) evs) as Hnext.
    { intros w0 evs0 Hw0 Hq0. unfold nextEntry. destruct (contentErr it); [by exists evs0|].
      destruct (IH w0) as (evs & Hevs & Hq). exists (evs0 ++ evs).
      split; [by rewrite Hevs, Hw0, <- app_assoc|]. apply Forall_app. split; [done|].
      eapply Forall_impl; [exact Hq|exact Hmono]. }
    destruct (entryTarget baseDir table (hName (hdr it))) as [target|] eqn:Ht;
      [|apply (Hnext w []); [by rewrite app_nil_r|constructor]].
    set (w1 := if verbose E then emit (Println ["Writing:"; target]) w else w).
    assert (∃ evs1, trace w1 = trace w ++ evs1 ∧ Forall (P (it :: rest)) evs1)
      as (evs1 & Hw1 & Hq1).
    { unfold w1. destruct (verbose E) eqn:Hv; simpl.
      - eexists. split; [reflexivity|]. apply List.Forall_cons; [|constructor].
        exists it, target. split; [apply list_elem_of_here|]. split; [done|]. by right.
      - exists []. by rewrite app_nil_r. }
    pose proof (writeEntry_trace E target it w1) as Hwr.
    destruct (writeEntry E target it w1) as [w2 [err|]]; simpl in *.
    + exists evs1. by rewrite Hwr.
    + apply (Hnext _ (evs1 ++ [Chtimes target (AccessTime (hdr it)) (ModTime (hdr it))])).
      * simpl. by rewrite Hwr, Hw1, <- app_assoc.
      * apply Forall_app. split; [done|]. apply List.Forall_cons; [|constructor].
        exists it, target. split; [apply list_elem_of_here|]. split; [done|]. by left.
Qed.

(** What the loop does besides writing: for an entry that passed the filter
    it sets the times of the target to those of the entry, after it has
    printed the target when the program is verbose.  An entry that was
    skipped leaves no trace. *)
Theorem loop_events_are_of_written_entries items fin w :
  Forall (fun e => ∃ it target,
            it ∈ items
            ∧ entryTarget baseDir table (hName (hdr it)) = Some target
            ∧ (e = Chtimes target (AccessTime (hdr it)) (ModTime (hdr it))
               ∨ (verbose E = true ∧ e = Println ["Writing:"; target])))
         (added w (extract E baseDir table items fin w).1).
Proof.
  destruct (extract_events items fin w) as (evs & Hevs & Hall).
  by rewrite (added_app _ _ _ Hevs).
Qed.







End Loop.


(** ** The table of packages *)

Section Table.

Lemma table_fold_lookup packages : ∀ (t : gmap string bool) k,
  fold_left (fun t dir => <[tableKey dir := true]> t) packages t !! k
  = if bool_decide (k ∈ map tableKey packages) then Some true else t !! k.
Proof.
  induction packages as [|d ps IH]; intros t k; simpl; [done|].
  rewrite IH. destruct (decide (k = tableKey d)) as [->|Hk].
  - rewrite lookup_insert_eq. rewrite (bool_decide_eq_true_2 (_ ∈ _ :: _)).
    + by case_bool_decide.
    + apply list_elem_of_here.
  - rewrite lookup_insert_ne by done.
    rewrite (bool_decide_ext (k ∈ tableKey d :: map tableKey ps) (k ∈ map tableKey ps));
      [done|]. rewrite elem_of_cons. split; [by intros [?|?]|by right].
Qed.

Lemma mkTable_lookup packages k :
  mkTable packages !! k
  = if bool_decide (k ∈ map tableKey packages) then Some true else None.
Proof.
  unfold mkTable.
  change (fun t dir => <[(if String.eqb dir "." then "" else dir) := true]> t)
    with (fun (t : gmap string bool) dir => <[tableKey dir := true]> t).
  by rewrite table_fold_lookup, lookup_empty.
Qed.

(** The table [download] builds depends on which directories the entry
    lists, [.] and the empty string being the same directory, and not on
    their order or on how often one is listed. *)
Theorem table_ignores_order_and_repeats packages1 packages2 :
  (∀ k, k ∈ map tableKey packages1 ↔ k ∈ map tableKey packages2) →
  mkTable packages1 = mkTable packages2.
Proof.
  intros Hsame. apply map_eq. intros k. rewrite !mkTable_lookup.
  by rewrite (bool_decide_ext _ _ (Hsame k)).
Qed.

End Table.

Lemma table_ignores_order_and_repeats_witness :
  mkTable ["foo"; "."; "foo"] = mkTable [""; "foo"].
Proof.
  apply table_ignores_order_and_repeats. intros k. simpl.
  rewrite !elem_of_cons, !elem_of_nil. unfold tableKey. simpl. tauto.
Defined.

(** ** The pattern for gopkg.in *)

Section GopkgPattern.

Lemma inClass_any c : inClass AnyButNL c = false → c = newline.
Proof.
  unfold inClass. rewrite negb_false_iff. by intros ?%Ascii.eqb_eq.
Qed.

(** What [gopkgRegexp] finds: the text [gopkg], the bytes of exactly one
    rune, which is not the line feed (a dot in the pattern), [in/], and what
    follows up to the end of the line, one character at least, which is the
    group. *)
Theorem gopkg_match_shape s g :
  FindStringSubmatch gopkgRegexp s = Some g →
  ∃ pre d rest post,
    s = pre +:+ "gopkg" +:+ d +:+ "in/" +:+ rest +:+ post
    ∧ g = ["gopkg" +:+ d +:+ "in/" +:+ rest; rest]
    ∧ d ≠ "" ∧ (String.length d ≤ 4)%nat
    ∧ (∃ r, runes d = [(r, d)] ∧ r ≠ 10%N)
    ∧ rest ≠ ""
    ∧ Forall (fun c => c ≠ newline) (String.list_ascii_of_string rest)
    ∧ (post = "" ∨ ∃ post', post = String newline post').
Proof.
  intros (pre & s0 & mt & gs & -> & Hm & ->)%FindStringSubmatch_Some.
  unfold gopkgRegexp in Hm.
  apply matchHere_lits in Hm as (s1 & mt1 & -> & -> & Hm).
  change ([Dot] ++ ?x) with (Dot :: x) in Hm.
  apply matchHere_dot_drop in Hm as (a & s1' & mt2 & Hs1a & Hnl & -> & Hm).
  apply matchHere_lits in Hm as (s3 & mt3 & Hdrop & -> & Hm).
  destruct (dot_one_rune s1 ("in/" +:+ s3)) as (Hs1 & Hdne & Hdlen & Hrune);
    [by rewrite Hs1a|done|done|].
  set (d := takeS (decodeRune s1).2 s1) in *. clearbody d. clear Hdrop Hs1a.
  rewrite matchHere_many in Hm.
  destruct (manyRun _ _ s3) as [[rest r]|] eqn:Hr; [|discriminate].
  injection Hm as <- <-.
  destruct (manyRun_end _ _ _ _ _ Hr) as (post & -> & Hm & Hend).
  apply manyRun_Some in Hr as (Hrne & Hrall & _).
  apply manyRun_None in Hend; [|done].
  injection Hm as <-. simpl.
  exists pre, d, rest, post. rewrite Hs1, append_nil_r, ?append_assoc.
  split; [done|]. split; [done|]. split; [done|]. split; [done|]. split; [done|].
  split; [done|]. split.
  - eapply Forall_impl; [exact Hrall|]. intros c Hc ->. done.
  - destruct Hend as [->|(c & post' & -> & Hc)]; [by left|]. right.
    exists post'. by rewrite (inClass_any c Hc).
Qed.

End GopkgPattern.

Lemma gopkg_match_shape_witness :
  FindStringSubmatch gopkgRegexp "https://gopkg.in/yaml.v2"
  = Some ["gopkg.in/yaml.v2"; "yaml.v2"]
  ∧ ∃ pre d rest post,
      "https://gopkg.in/yaml.v2" = pre +:+ "gopkg" +:+ d +:+ "in/" +:+ rest +:+ post
      ∧ ["gopkg.in/yaml.v2"; "yaml.v2"] = ["gopkg" +:+ d +:+ "in/" +:+ rest; rest]
      ∧ d ≠ "" ∧ (String.length d ≤ 4)%nat
      ∧ (∃ r, runes d = [(r, d)] ∧ r ≠ 10%N)
      ∧ rest ≠ ""
      ∧ Forall (fun c => c ≠ newline) (String.list_ascii_of_string rest)
      ∧ (post = "" ∨ ∃ post', post = String newline post').
Proof.
  split; [reflexivity|].
  apply (gopkg_match_shape "https://gopkg.in/yaml.v2"). reflexivity.
Defined.
